(** * HistoryHydratingAgentRunner: history hydration and stream continuation

    A shallow embedding of [src/runner/history-hydrating-runner.ts] (class
    [HistoryHydratingAgentRunner]) and of the declarations of
    [src/runner/types.ts] it works on.

    Conventions of the embedding:
    - a JS [Set<string>] is a [gset string], an open JS object
      ([Record<string, unknown>]) a [gmap string JSValue];
    - values typed [unknown] in the source are kept abstract ([JSValue]);
    - the subscriber, the calls made on the history client, the draws of
      [Math.random] and the runner's mutable field [activeRun] form an
      explicit state ([World]) threaded by a state-and-exception monad [M];
      [try]/[catch] is [try_catch];
    - the [timestamp: Date.now()] field of the emitted events is wall-clock
      time and is left out of the event record, as is console logging. *)

From Stdlib Require Import ZArith.
From stdpp Require Import base gmap sets list strings.

Set Default Proof Using "Type".
Set Warnings "-clear-no-such-hyp".

(** ** Values the source leaves untyped *)

(** [unknown] payloads and the CopilotKit message type produced by
    [transformMessages] (declared outside this repository's runner). *)
Class JSUniverse := {
  JSValue : Type;
  JSValue_eq_dec :: EqDecision JSValue;
  Message : Type;
}.

(** ** Data model ([types.ts]) *)

Inductive MessageType := human | ai | tool | system.

Record ContentPart := {
  part_type : string;
  part_text : option string;
}.

Inductive MessageContent :=
| ContentText (text : string)
| ContentParts (parts : list ContentPart).

Record ToolCall `{JSUniverse} := {
  tc_id : string;
  tc_name : string;
  tc_args : gmap string JSValue;
}.

(** [LangGraphMessage] *)
Record LangGraphMessage `{JSUniverse} := {
  msg_id : string;
  msg_type : MessageType;
  msg_content : MessageContent;
  msg_tool_calls : option (list ToolCall);
  msg_tool_call_id : option string;
}.

(** [ThreadState.values]: the [messages] key and the other keys. *)
Record Values `{JSUniverse} := {
  messages : option (list LangGraphMessage);
  other_values : gmap string JSValue;
}.

Record Interrupt `{JSUniverse} := {
  value : option JSValue;
  other_interrupt_keys : gmap string JSValue;
}.

Record Task `{JSUniverse} := {
  task_id : string;
  task_name : string;
  interrupts : option (list Interrupt);
}.

(** [ThreadState]. The runner guards [values], [next] and [tasks] against
    being absent ([state.values?.messages], [latestState.next && ...],
    [latestState.tasks?.find]), so they are optional here. *)
Record ThreadState `{JSUniverse} := {
  values : option Values;
  next : option (list string);
  tasks : option (list Task);
  created_at : option string;
}.

Inductive RunStatus :=
| running | pending | success | error | timeout | interrupted.

(** [HistoryRun] *)
Record HistoryRun := {
  run_id : string;
  status : RunStatus;
  thread_id : option string;
  run_created_at : option string;
}.

(** [HistoryStreamChunk] *)
Record HistoryStreamChunk `{JSUniverse} := {
  event : string;
  data : JSValue;
}.

(** ** Exceptions *)

Definition JSError := string.

Inductive Result (A : Type) :=
| Ok (a : A)
| Throw (e : JSError).
Arguments Ok {A} a.
Arguments Throw {A} e.

(** An async iterable of chunks as the runner consumes it: the chunks it
    yields, then either the end of the stream or a rejection. *)
Record ChunkStream `{JSUniverse} := {
  chunks : list HistoryStreamChunk;
  failure : option JSError;
}.

(** [HistoryClientInterface]. Each operation either returns or throws.
    [runs_list] is asked up to twice by one [connect]; its first argument
    is the number of [runs.list] calls made before, so that the backend may
    answer differently the second time. [getHistory] and [runs.list] may
    answer [null]/[undefined] at run time ([!history], [runs && ...],
    [runs?.find]). *)
Record HistoryClientInterface `{JSUniverse} := {
  threads_getHistory : string -> Z -> Result (option (list ThreadState));
  threads_getState : string -> Result ThreadState;
  runs_list : nat -> string -> Result (option (list HistoryRun));
  runs_joinStream : string -> string -> list string -> Result ChunkStream;
}.

(** ** Events ([BaseEvent] object literals built by the runner, and the
    live events of the stream translator) *)

Inductive EventType :=
| RUN_STARTED | RUN_FINISHED | MESSAGES_SNAPSHOT | STATE_SNAPSHOT | CUSTOM
| TEXT_MESSAGE_START | TEXT_MESSAGE_CONTENT | TEXT_MESSAGE_END
| TOOL_CALL_START | TOOL_CALL_ARGS | TOOL_CALL_END.

Inductive BaseEvent `{JSUniverse} :=
| RunStarted (threadId runId : string)
| MessagesSnapshot (msgs : list Message) (threadId runId : string)
  (** [snapshot: latestState.values], [rawEvent: {id: runId, event: "values", data}] *)
| StateSnapshot (snapshot : Values) (threadId runId : string)
  (** [name], [value: JSON.stringify(v)], [rawEvent: {id: runId, value: v}] *)
| CustomEvent (name : string) (stringified : option string)
    (raw : option JSValue) (threadId runId : string)
| RunFinished (threadId runId : string)
  (** events of the stream translator *)
| LiveState (payload : gmap string JSValue) (threadId runId : string)
| TextMessageStart (messageId : string) (threadId runId : string)
| TextMessageContent (messageId delta : string) (threadId runId : string)
| TextMessageEnd (messageId : string) (threadId runId : string)
| ToolCallStart (toolCallId toolCallName : string) (threadId runId : string)
| ToolCallArgs (toolCallId delta : string) (threadId runId : string)
| ToolCallEnd (toolCallId : string) (threadId runId : string).

Definition event_type `{JSUniverse} (e : BaseEvent) : EventType :=
  match e with
  | RunStarted _ _ => RUN_STARTED
  | MessagesSnapshot _ _ _ => MESSAGES_SNAPSHOT
  | StateSnapshot _ _ _ => STATE_SNAPSHOT
  | CustomEvent _ _ _ _ _ => CUSTOM
  | RunFinished _ _ => RUN_FINISHED
  | LiveState _ _ _ => STATE_SNAPSHOT
  | TextMessageStart _ _ _ => TEXT_MESSAGE_START
  | TextMessageContent _ _ _ _ => TEXT_MESSAGE_CONTENT
  | TextMessageEnd _ _ _ => TEXT_MESSAGE_END
  | ToolCallStart _ _ _ _ => TOOL_CALL_START
  | ToolCallArgs _ _ _ _ => TOOL_CALL_ARGS
  | ToolCallEnd _ _ _ => TOOL_CALL_END
  end.

Definition event_runId `{JSUniverse} (e : BaseEvent) : string :=
  match e with
  | RunStarted _ r | MessagesSnapshot _ _ r | StateSnapshot _ _ r
  | CustomEvent _ _ _ _ r | RunFinished _ r | LiveState _ _ r
  | TextMessageStart _ _ r | TextMessageContent _ _ _ r
  | TextMessageEnd _ _ r | ToolCallStart _ _ _ r | ToolCallArgs _ _ _ r
  | ToolCallEnd _ _ r => r
  end.


(** ** The state threaded through a [connect] *)

(** What the runner does to the outside, in program order: notifications
    pushed to the subscriber, calls made on the history client, and the end
    of the joined stream as the [for await] loop observes it. *)
Inductive Action `{JSUniverse} :=
| SubscriberNext (e : BaseEvent)
| SubscriberComplete
| CallGetHistory (threadId : string) (limit : Z)
| CallGetState (threadId : string)
| CallRunsList (threadId : string)
| CallJoinStream (threadId runId : string) (streamMode : list string)
| StreamEnded (failure : option JSError).

Record World `{JSUniverse} := {
  trace : list Action;
  (** number of [Math.random()] draws so far *)
  randoms : nat;
  (** number of [client.runs.list] calls so far *)
  listCalls : nat;
  (** [this.activeRun.manuallyEmittedState] *)
  activeRun_manuallyEmittedState : option (gmap string JSValue);
}.

Definition M `{JSUniverse} (A : Type) : Type := World -> Result A * World.

Definition ret `{JSUniverse} {A} (a : A) : M A := fun w => (Ok a, w).

Definition bind `{JSUniverse} {A B} (m : M A) (k : A -> M B) : M B :=
  fun w =>
    match m w with
    | (Ok a, w') => k a w'
    | (Throw e, w') => (Throw e, w')
    end.

Definition throw `{JSUniverse} {A} (e : JSError) : M A := fun w => (Throw e, w).

(** [try { m } catch (error) { h error }]: what [m] did before throwing
    stays done. *)
Definition try_catch `{JSUniverse} {A} (m : M A) (h : JSError -> M A) : M A :=
  fun w =>
    match m w with
    | (Ok a, w') => (Ok a, w')
    | (Throw e, w') => h e w'
    end.

Definition lift `{JSUniverse} {A} (r : Result A) : M A := fun w => (r, w).

Notation "'let*' x ':=' m 'in' k" := (bind m (fun x => k))
  (at level 10, x pattern, m at level 100, k at level 200).
Notation "m ;;; k" := (bind m (fun _ => k))
  (at level 100, k at level 200, right associativity).

Definition act `{JSUniverse} (a : Action) : M unit :=
  fun w =>
    (Ok tt,
     {| trace := trace w ++ [a];
        randoms := randoms w;
        listCalls := listCalls w;
        activeRun_manuallyEmittedState := activeRun_manuallyEmittedState w |}).

(** [subscriber.next(e)] and [subscriber.complete()] *)
Definition subscriber_next `{JSUniverse} (e : BaseEvent) : M unit :=
  act (SubscriberNext e).
Definition subscriber_complete `{JSUniverse} : M unit :=
  act SubscriberComplete.

Definition get_manuallyEmittedState `{JSUniverse}
  : M (option (gmap string JSValue)) :=
  fun w => (Ok (activeRun_manuallyEmittedState w), w).

Definition set_manuallyEmittedState `{JSUniverse}
    (v : option (gmap string JSValue)) : M unit :=
  fun w =>
    (Ok tt,
     {| trace := trace w;
        randoms := randoms w;
        listCalls := listCalls w;
        activeRun_manuallyEmittedState := v |}).

(** The calls on the client, each recorded before its answer is used. *)
Definition client_getHistory `{JSUniverse} (client : HistoryClientInterface)
    (threadId : string) (limit : Z) : M (option (list ThreadState)) :=
  act (CallGetHistory threadId limit) ;;;
  lift (threads_getHistory client threadId limit).

Definition client_getState `{JSUniverse} (client : HistoryClientInterface)
    (threadId : string) : M ThreadState :=
  act (CallGetState threadId) ;;;
  lift (threads_getState client threadId).

Definition client_runs_list `{JSUniverse} (client : HistoryClientInterface)
    (threadId : string) : M (option (list HistoryRun)) :=
  fun w =>
    (runs_list client (listCalls w) threadId,
     {| trace := trace w ++ [CallRunsList threadId];
        randoms := randoms w;
        listCalls := S (listCalls w);
        activeRun_manuallyEmittedState := activeRun_manuallyEmittedState w |}).

Definition client_joinStream `{JSUniverse} (client : HistoryClientInterface)
    (threadId runId : string) (streamMode : list string) : M ChunkStream :=
  act (CallJoinStream threadId runId streamMode) ;;;
  lift (runs_joinStream client threadId runId streamMode).

(** ** What the runner imports *)

(** [FrozenAgentConfig] *)
Record FrozenAgentConfig := {
  deploymentUrl : string;
  graphId : string;
  langsmithApiKey : option string;
  clientTimeoutMs : Z;
}.

(** The second argument of [processStreamChunk], without the subscriber:
    what the translator pushes to it is part of [ProcessOutcome]. *)
Record ProcessContext `{JSUniverse} := {
  ctx_threadId : string;
  ctx_runId : string;
  ctx_startedMessages : gset string;
  ctx_startedToolCalls : gset string;
  ctx_debug : bool;
  ctx_manuallyEmittedState : option (gmap string JSValue);
}.

(** What [processStreamChunk] resolves to. *)
Record ProcessResult `{JSUniverse} := {
  res_runId : string;
  res_manuallyEmittedState : option (gmap string JSValue);
}.

(** One call of [processStreamChunk] as the runner sees it: the events it
    pushed to the subscriber, the two sets it was handed (they are mutated in
    place) as it leaves them, and its result or the exception it threw. *)
Record ProcessOutcome `{JSUniverse} := {
  out_events : list BaseEvent;
  out_startedMessages : gset string;
  out_startedToolCalls : gset string;
  out_result : Result ProcessResult;
}.

(** Functions the runner calls and does not define: JS built-ins, the
    LangGraph SDK client and the message transformer of [../utils]. *)
Class Imports `{JSUniverse} := {
  (** the string [JSON.stringify] returns, when it returns; [undefined] in,
      [undefined] out *)
  JSON_stringify : option JSValue -> option string;
  (** [Math.random().toString(36).slice(2)] at the n-th draw *)
  Math_random_base36 : nat -> string;
  (** [wrapSdkClient(new Client({apiUrl, apiKey, timeoutMs}))] *)
  sdkClient : FrozenAgentConfig -> HistoryClientInterface;
  (** [transformMessages(messages, {debug})] of [../utils/message-transformer] *)
  transformMessages : list LangGraphMessage -> bool -> Result (list Message);
}.

(** [JSON.stringify] does not return on every value: on a BigInt and on a
    structure with a cycle it throws a [TypeError]. An interrupt payload is
    typed [unknown] and a history client supplied with the configuration
    hands over whatever objects it holds, so the runner can meet such a
    value. [stringify_error v] is the error thrown on [v], if [v] is such a
    value. *)
Class Serializer `{JSUniverse} := {
  stringify_error : option JSValue -> option JSError;
}.

(** Payloads that were parsed from JSON, as the LangGraph SDK client
    delivers them: every one can be serialised again. *)
Definition jsonValues `{JSUniverse} : Serializer :=
  {| stringify_error := fun _ => None |}.

(** The stream translator the runner drives, [processStreamChunk(chunk,
    context)] of [../utils/stream-processor]. *)
Class StreamProcessor `{JSUniverse} := {
  processStreamChunk : HistoryStreamChunk -> ProcessContext -> ProcessOutcome;
}.

(** ["<prefix>" + Math.random().toString(36).slice(2)] *)
Definition random_id `{Imports} (prefix : string) : M string :=
  fun w =>
    (Ok (prefix +:+ Math_random_base36 (randoms w)),
     {| trace := trace w;
        randoms := S (randoms w);
        listCalls := listCalls w;
        activeRun_manuallyEmittedState := activeRun_manuallyEmittedState w |}).

(** ** Constants *)

(** Modelled from the spec: [src/runner/constants.ts] is not among the
    sources. The values are the ones the configuration documents
    ([types.ts], [historyLimit]: "Default: 100, Maximum: 1000 (LangGraph API
    limit)"; [clientTimeoutMs]: "Default: 1800000") and the specification
    repeats ("[historyLimit] (default 100, hard ceiling imposed by the
    backend)"). *)
Definition DEFAULT_HISTORY_LIMIT : Z := 100.
Definition MAX_HISTORY_LIMIT : Z := 1000.
Definition DEFAULT_TIMEOUT : Z := 1800000.

(** ** The runner *)

(** [HistoryHydratingRunnerConfig], without the agent and the state
    extractor, which only [run()] uses. *)
Record HistoryHydratingRunnerConfig `{JSUniverse} := {
  cfg_deploymentUrl : option string;
  cfg_graphId : option string;
  cfg_client : option HistoryClientInterface;
  cfg_langsmithApiKey : option string;
  cfg_historyLimit : option Z;
  cfg_clientTimeoutMs : option Z;
  cfg_debug : option bool;
}.

(** The fields of a [HistoryHydratingAgentRunner] that [connect] reads. The
    mutable field [activeRun] lives in [World]. *)
Record HistoryHydratingAgentRunner `{JSUniverse} := {
  historyLimit : Z;
  debug : bool;
  customClient : option HistoryClientInterface;
  frozenConfig : option FrozenAgentConfig;
}.

(** [!s] for an optional string: absent or empty. *)
Definition falsy_string (s : option string) : bool :=
  match s with
  | None => true
  | Some s => bool_decide (s = EmptyString)
  end.

(** [a ?? b] *)
Definition nullish {A} (a : option A) (b : A) : A :=
  match a with
  | Some a => a
  | None => b
  end.

(** [constructor(config)] *)
Definition constructor `{JSUniverse} (config : HistoryHydratingRunnerConfig)
  : Result HistoryHydratingAgentRunner :=
  let historyLimit :=
    Z.min (nullish (cfg_historyLimit config) DEFAULT_HISTORY_LIMIT)
          MAX_HISTORY_LIMIT in
  let with_frozen (suffix : string) :=
    if falsy_string (cfg_deploymentUrl config) then
      Throw ("HistoryHydratingAgentRunner: deploymentUrl is required " +:+ suffix)
    else if falsy_string (cfg_graphId config) then
      Throw ("HistoryHydratingAgentRunner: graphId is required " +:+ suffix)
    else
      Ok {| historyLimit := historyLimit;
            debug := nullish (cfg_debug config) false;
            customClient := cfg_client config;
            frozenConfig := Some
              {| deploymentUrl := nullish (cfg_deploymentUrl config) EmptyString;
                 graphId := nullish (cfg_graphId config) EmptyString;
                 langsmithApiKey := cfg_langsmithApiKey config;
                 clientTimeoutMs :=
                   nullish (cfg_clientTimeoutMs config) DEFAULT_TIMEOUT |} |} in
  match cfg_client config with
  | Some _ =>
      with_frozen "(even when using a custom client, for agent creation)"
  | None => with_frozen "when not using a custom client"
  end.

(** [getHistoryClient()] *)
Definition getHistoryClient `{Imports} (this : HistoryHydratingAgentRunner)
  : Result HistoryClientInterface :=
  match customClient this with
  | Some client => Ok client
  | None =>
      match frozenConfig this with
      | None =>
          Throw "Cannot create client: neither custom client nor frozenConfig is available"
      | Some frozen => Ok (sdkClient frozen)
      end
  end.

(** *** Building the message log ([connect], "Extract messages from all
    checkpoints") *)

(** The body of the inner loop: [if (!seenMessageIds.has(msg.id))
    { seenMessageIds.add(msg.id); allMessages.push(msg); }]. The pair is
    ([allMessages], [seenMessageIds]). *)
Definition addIfUnseen `{JSUniverse}
    (acc : list LangGraphMessage * gset string) (msg : LangGraphMessage)
  : list LangGraphMessage * gset string :=
  let '(allMessages, seenMessageIds) := acc in
  if decide (msg_id msg ∈ seenMessageIds) then acc
  else (allMessages ++ [msg], {[msg_id msg]} ∪ seenMessageIds).

(** The body of the outer loop: [if (state.values?.messages) { for (const
    msg of messages) ... }]. *)
Definition addCheckpoint `{JSUniverse}
    (acc : list LangGraphMessage * gset string) (state : ThreadState)
  : list LangGraphMessage * gset string :=
  match values state with
  | Some v =>
      match messages v with
      | Some msgs => foldl addIfUnseen acc msgs
      | None => acc
      end
  | None => acc
  end.

(** The two loops over the (already reversed) history; the result is
    [allMessages]. *)
Definition collectMessages `{JSUniverse} (history : list ThreadState)
  : list LangGraphMessage :=
  fst (foldl addCheckpoint ([], ∅) history).

(** [Array.prototype.slice(start)] for an integer [start]. *)
Definition slice {A} (start : Z) (l : list A) : list A :=
  let len := Z.of_nat (length l) in
  let k := if (start <? 0)%Z then Z.max (len + start) 0 else Z.min start len in
  drop (Z.to_nat k) l.

(** [this.historyLimit > 0 ? allMessages.slice(-this.historyLimit) :
    allMessages] *)
Definition limitMessages `{JSUniverse} (this : HistoryHydratingAgentRunner)
    (allMessages : list LangGraphMessage) : list LangGraphMessage :=
  if (0 <? historyLimit this)%Z then slice (- historyLimit this) allMessages
  else allMessages.

(** The message log of a history as the backend returned it (newest
    first): [history.reverse()], the two loops, the limit. *)
Definition messageLog `{JSUniverse} (this : HistoryHydratingAgentRunner)
    (history : list ThreadState) : list LangGraphMessage :=
  limitMessages this (collectMessages (reverse history)).

(** [this.historyLimit > 0 ? this.historyLimit : DEFAULT_HISTORY_LIMIT],
    the [limit] option of the history fetch. *)
Definition fetchLimit `{JSUniverse} (this : HistoryHydratingAgentRunner) : Z :=
  if (0 <? historyLimit this)%Z then historyLimit this
  else DEFAULT_HISTORY_LIMIT.

(** *** Interrupts *)

(** [task.interrupts && task.interrupts.length > 0] *)
Definition hasInterrupts `{JSUniverse} (task : Task) : bool :=
  match interrupts task with
  | Some (_ :: _) => true
  | _ => false
  end.

(** [state.tasks?.find((task) => task.interrupts && task.interrupts.length > 0)] *)
Definition findInterruptedTask `{JSUniverse} (state : ThreadState)
  : option Task :=
  match tasks state with
  | Some ts => List.find hasInterrupts ts
  | None => None
  end.

(** The guarded block that follows the [find], in [connect] and in
    [joinAndProcessStream]: when the task found has a first interrupt,
    emit the custom event for [interrupt?.value]. The event object is built
    before [subscriber.next] is called, so an exception of
    [JSON.stringify(interruptValue)] leaves the block with nothing
    emitted. *)
Definition emitInterrupt `{Imports} `{!Serializer}
    (interruptedTask : option Task) (threadId runId : string) : M unit :=
  match interruptedTask with
  | Some task =>
      match interrupts task with
      | Some (interrupt :: _) =>
          let interruptValue := value interrupt in
          match stringify_error interruptValue with
          | Some typeError => throw typeError
          | None =>
              subscriber_next
                (CustomEvent "on_interrupt" (JSON_stringify interruptValue)
                   interruptValue threadId runId)
          end
      | _ => ret tt
      end
  | None => ret tt
  end.

(** *** Joining a live stream *)

(** The variables of [joinAndProcessStream] that change from chunk to
    chunk: the two sets handed to [processStreamChunk], [currentRunId] and
    [manuallyEmittedState]. *)
Record JoinState `{JSUniverse} := {
  startedMessages : gset string;
  startedToolCalls : gset string;
  currentRunId : string;
  manuallyEmittedState : option (gmap string JSValue);
}.

Fixpoint subscriber_next_all `{JSUniverse} (es : list BaseEvent) : M unit :=
  match es with
  | [] => ret tt
  | e :: es => subscriber_next e ;;; subscriber_next_all es
  end.

(** One turn of the [for await] loop. An exception of [processStreamChunk]
    is caught and the loop goes on: [currentRunId] and
    [manuallyEmittedState] keep their values, what the call had pushed to
    the subscriber and added to the sets before throwing stays. *)
Definition processChunk `{Imports} `{!StreamProcessor}
    (this : HistoryHydratingAgentRunner)
    (threadId : string) (st : JoinState) (chunk : HistoryStreamChunk)
  : M JoinState :=
  let out :=
    processStreamChunk chunk
      {| ctx_threadId := threadId;
         ctx_runId := currentRunId st;
         ctx_startedMessages := startedMessages st;
         ctx_startedToolCalls := startedToolCalls st;
         ctx_debug := debug this;
         ctx_manuallyEmittedState := manuallyEmittedState st |} in
  subscriber_next_all (out_events out) ;;;
  match out_result out with
  | Ok result =>
      ret {| startedMessages := out_startedMessages out;
             startedToolCalls := out_startedToolCalls out;
             currentRunId := res_runId result;
             manuallyEmittedState := res_manuallyEmittedState result |}
  | Throw chunkError =>
      ret {| startedMessages := out_startedMessages out;
             startedToolCalls := out_startedToolCalls out;
             currentRunId := currentRunId st;
             manuallyEmittedState := manuallyEmittedState st |}
  end.

(** [for await (const chunk of stream) { ... }] over the chunks the stream
    yields. *)
Fixpoint forAwait `{Imports} `{!StreamProcessor}
    (this : HistoryHydratingAgentRunner)
    (threadId : string) (cs : list HistoryStreamChunk) (st : JoinState)
  : M JoinState :=
  match cs with
  | [] => ret st
  | chunk :: cs =>
      let* st' := processChunk this threadId st chunk in
      forAwait this threadId cs st'
  end.

(** [streamMode: ["events", "values", "updates", "custom"]] *)
Definition streamModes : list string :=
  ["events"; "values"; "updates"; "custom"].

(** [joinAndProcessStream(client, threadId, runId, subscriber)] *)
Definition joinAndProcessStream `{Imports} `{!Serializer} `{!StreamProcessor}
    (this : HistoryHydratingAgentRunner)
    (client : HistoryClientInterface) (threadId runId : string) : M unit :=
  try_catch
    (let* stream := client_joinStream client threadId runId streamModes in
     let* carried := get_manuallyEmittedState in
     let* st :=
       forAwait this threadId (chunks stream)
         {| startedMessages := ∅;
            startedToolCalls := ∅;
            currentRunId := runId;
            manuallyEmittedState := carried |} in
     act (StreamEnded (failure stream)) ;;;
     match failure stream with
     | Some streamError => throw streamError
     | None =>
         (* Update active run state *)
         set_manuallyEmittedState (manuallyEmittedState st) ;;;
         (* Stream completed - check for interrupts before finishing *)
         try_catch
           (let* threadState := client_getState client threadId in
            emitInterrupt (findInterruptedTask threadState)
              threadId (currentRunId st))
           (fun stateError => ret tt) ;;;
         (* Stream completed - emit RUN_FINISHED *)
         subscriber_next (RunFinished threadId (currentRunId st))
     end)
    (fun error =>
       subscriber_next (RunFinished threadId runId) ;;;
       throw error).

(** *** Hydration *)

(** The three events both fallback paths of [connect] emit, then
    [subscriber.complete()]. *)
Definition fallback `{Imports} (prefix threadId : string) : M unit :=
  let* fallbackRunId := random_id prefix in
  subscriber_next (RunStarted threadId fallbackRunId) ;;;
  subscriber_next (MessagesSnapshot [] threadId fallbackRunId) ;;;
  subscriber_next (RunFinished threadId fallbackRunId) ;;;
  subscriber_complete.

(** "Fetch runs to get the latest runId" *)
Definition latestRunId `{Imports} (client : HistoryClientInterface)
    (threadId : string) : M string :=
  try_catch
    (let* runs := client_runs_list client threadId in
     match runs with
     | Some (run :: _) => ret (run_id run)
     | _ => random_id "hydration_"
     end)
    (fun error => random_id "hydration_").

(** "Emit STATE_SNAPSHOT event with latest state values":
    [if (latestState.values) { subscriber.next(...) }] *)
Definition emitState `{JSUniverse} (latestState : ThreadState)
    (threadId runId : string) : M unit :=
  match values latestState with
  | Some v => subscriber_next (StateSnapshot v threadId runId)
  | None => ret tt
  end.

(** [latestState.next && latestState.next.length > 0] *)
Definition isThreadBusy `{JSUniverse} (latestState : ThreadState) : bool :=
  match next latestState with
  | Some (_ :: _) => true
  | _ => false
  end.

(** [run.status === "running" || run.status === "pending"] *)
Definition isActive (run : HistoryRun) : bool :=
  match status run with
  | running | pending => true
  | _ => false
  end.

(** "Check if thread is busy and has an active run to join" *)
Definition findActiveRun `{Imports} (client : HistoryClientInterface)
    (latestState : ThreadState) (threadId : string) : M (option HistoryRun) :=
  if isThreadBusy latestState then
    try_catch
      (let* runs := client_runs_list client threadId in
       ret (match runs with
            | Some runs => List.find isActive runs
            | None => None
            end))
      (fun error => ret None)
  else ret None.

(** "If there's an active run, join the stream", else [RUN_FINISHED]. *)
Definition joinOrFinish `{Imports} `{!Serializer} `{!StreamProcessor}
    (this : HistoryHydratingAgentRunner)
    (client : HistoryClientInterface) (activeRun : option HistoryRun)
    (threadId runId : string) : M unit :=
  match activeRun with
  | Some run =>
      try_catch
        (joinAndProcessStream this client threadId (run_id run))
        (fun error => ret tt)
  | None => subscriber_next (RunFinished threadId runId)
  end.

(** The [try] block of [hydrate]. *)
Definition hydrateBody `{Imports} `{!Serializer} `{!StreamProcessor}
    (this : HistoryHydratingAgentRunner)
    (client : HistoryClientInterface) (threadId : string) : M unit :=
  let* history := client_getHistory client threadId (fetchLimit this) in
  match history with
  | None | Some [] => fallback "hydration_" threadId
  | Some history =>
      (* history.reverse() reverses the array in place *)
      let history := reverse history in
      let allMessages := collectMessages history in
      let limitedMessages := limitMessages this allMessages in
      let* transformedMessages :=
        lift (transformMessages limitedMessages (debug this)) in
      let* runId := latestRunId client threadId in
      subscriber_next (RunStarted threadId runId) ;;;
      subscriber_next (MessagesSnapshot transformedMessages threadId runId) ;;;
      (* history[history.length - 1] *)
      match last history with
      | None => throw "TypeError: latestState is undefined"
      | Some latestState =>
          emitState latestState threadId runId ;;;
          emitInterrupt (findInterruptedTask latestState) threadId runId ;;;
          let* activeRun := findActiveRun client latestState threadId in
          joinOrFinish this client activeRun threadId runId ;;;
          subscriber_complete
      end
  end.

(** [hydrate], the async function [connect] starts on subscription. *)
Definition hydrate `{Imports} `{!Serializer} `{!StreamProcessor}
    (this : HistoryHydratingAgentRunner)
    (client : HistoryClientInterface) (threadId : string) : M unit :=
  try_catch
    (hydrateBody this client threadId)
    (fun error => fallback "hydration_error_" threadId).

(** [connect(request)]: the client is obtained first, outside the
    observable; the observable runs [hydrate]. *)
Definition connect `{Imports} `{!Serializer} `{!StreamProcessor}
    (this : HistoryHydratingAgentRunner)
    (threadId : string) : Result (M unit) :=
  match getHistoryClient this with
  | Ok client => Ok (hydrate this client threadId)
  | Throw e => Throw e
  end.

(** A new subscription on a runner whose [activeRun] holds [carried]. *)
Definition subscribe `{JSUniverse} (carried : option (gmap string JSValue))
  : World :=
  {| trace := [];
     randoms := 0;
     listCalls := 0;
     activeRun_manuallyEmittedState := carried |}.

(** The notifications the subscriber received, in order: [Some e] for
    [next(e)], [None] for [complete()]. *)
Definition notifications `{JSUniverse} (t : list Action)
  : list (option BaseEvent) :=
  omap (fun a =>
          match a with
          | SubscriberNext e => Some (Some e)
          | SubscriberComplete => Some None
          | _ => None
          end) t.

(** The events passed to [subscriber.next], in order. *)
Definition events `{JSUniverse} (t : list Action) : list BaseEvent :=
  omap (fun a =>
          match a with
          | SubscriberNext e => Some e
          | _ => None
          end) t.

(** ** The stream translator *)

(** Modelled from the spec: [src/utils/stream-processor.ts]
    ([processStreamChunk], [StreamChunk]) is not among the sources. The
    definitions of this part follow section 4.4 of the specification
    ("Stream Chunk Translator"):
    - "a chunk representing a new message beginning: if its id is not
      already in [startedMessages], emit a message-start event and record
      it; always emit the corresponding content-delta event";
    - "a chunk representing a tool-call beginning: same start/track pattern
      keyed on tool-call id";
    - "a content or end chunk may arrive before any corresponding start
      chunk was observed by this translator instance [...] The translator
      must synthesize the missing start event the first time it sees such a
      chunk";
    - "a chunk representing custom application state: emit a
      STATE_SNAPSHOT-shaped event; if [manuallyEmittedState] already equals
      this payload (structural equality), suppress the duplicate emission";
      the payload emitted becomes the [manuallyEmittedState] the translator
      returns (section 8, re-join resilience: the value carried forward is
      the payload of the earlier state chunk);
    - "any chunk with no recognized shape is ignored";
    - "a chunk may carry a new run id that supersedes the one the join was
      opened with; all subsequent emitted events must use the latest known
      run id".
    How a shape is recognised in the [event] tag and the [data] payload is
    not specified; it is the parameter [ChunkReader]. *)
Inductive ChunkPhase := ChunkStart | ChunkContent | ChunkEnd.

(** Modelled from the spec: the "tagged union over [StreamChunk.event] with
    one variant per recognized shape" of section 9. *)
Inductive ChunkShape `{JSUniverse} :=
| MessageChunk (phase : ChunkPhase) (messageId delta : string)
| ToolCallChunk (phase : ChunkPhase) (toolCallId toolCallName delta : string)
| StateChunk (payload : gmap string JSValue)
| UnrecognizedChunk.

(** Modelled from the spec: the shape of a chunk and the run id it may
    carry. *)
Class ChunkReader `{JSUniverse} := {
  chunkShape : HistoryStreamChunk -> ChunkShape;
  chunkRunId : HistoryStreamChunk -> option string;
}.

(** Modelled from the spec: the start event when [id] is not in the started
    set yet. *)
Definition startIfNew `{JSUniverse} (started : gset string) (id : string)
    (start : BaseEvent) : list BaseEvent :=
  if decide (id ∈ started) then [] else [start].

(** Modelled from the spec: the translation of one chunk (section 4.4,
    "Contract per chunk" and "Policy for mid-stream join"). *)
Definition translateChunk `{ChunkReader} (chunk : HistoryStreamChunk)
    (ctx : ProcessContext) : ProcessOutcome :=
  let threadId := ctx_threadId ctx in
  let runId := nullish (chunkRunId chunk) (ctx_runId ctx) in
  let unchanged :=
    Ok {| res_runId := runId;
          res_manuallyEmittedState := ctx_manuallyEmittedState ctx |} in
  match chunkShape chunk with
  | MessageChunk phase messageId delta =>
      {| out_events :=
           startIfNew (ctx_startedMessages ctx) messageId
             (TextMessageStart messageId threadId runId) ++
           [match phase with
            | ChunkEnd => TextMessageEnd messageId threadId runId
            | _ => TextMessageContent messageId delta threadId runId
            end];
         out_startedMessages := {[messageId]} ∪ ctx_startedMessages ctx;
         out_startedToolCalls := ctx_startedToolCalls ctx;
         out_result := unchanged |}
  | ToolCallChunk phase toolCallId toolCallName delta =>
      {| out_events :=
           startIfNew (ctx_startedToolCalls ctx) toolCallId
             (ToolCallStart toolCallId toolCallName threadId runId) ++
           [match phase with
            | ChunkEnd => ToolCallEnd toolCallId threadId runId
            | _ => ToolCallArgs toolCallId delta threadId runId
            end];
         out_startedMessages := ctx_startedMessages ctx;
         out_startedToolCalls := {[toolCallId]} ∪ ctx_startedToolCalls ctx;
         out_result := unchanged |}
  | StateChunk payload =>
      if decide (ctx_manuallyEmittedState ctx = Some payload) then
        {| out_events := [];
           out_startedMessages := ctx_startedMessages ctx;
           out_startedToolCalls := ctx_startedToolCalls ctx;
           out_result := unchanged |}
      else
        {| out_events := [LiveState payload threadId runId];
           out_startedMessages := ctx_startedMessages ctx;
           out_startedToolCalls := ctx_startedToolCalls ctx;
           out_result :=
             Ok {| res_runId := runId;
                   res_manuallyEmittedState := Some payload |} |}
  | UnrecognizedChunk =>
      {| out_events := [];
         out_startedMessages := ctx_startedMessages ctx;
         out_startedToolCalls := ctx_startedToolCalls ctx;
         out_result := unchanged |}
  end.

(** Modelled from the spec: the translator of section 4.4 as the
    [processStreamChunk] the runner drives. *)
Definition specProcessor `{ChunkReader} : StreamProcessor :=
  {| processStreamChunk := translateChunk |}.

(** ** Vocabulary of the statements *)

(** [values.messages] of a checkpoint, empty when absent. *)
Definition checkpointMessages `{JSUniverse} (state : ThreadState)
  : list LangGraphMessage :=
  match values state with
  | Some v => default [] (messages v)
  | None => []
  end.

(** All messages of a history (given newest first) in chronological order:
    oldest checkpoint first, and within a checkpoint in list order. *)
Definition chronological `{JSUniverse} (history : list ThreadState)
  : list LangGraphMessage :=
  concat (checkpointMessages <$> reverse history).

(** [m] stands at position [j] of [l] and no earlier message of [l] has its
    id. *)
Definition firstOccurrenceAt `{JSUniverse} (l : list LangGraphMessage)
    (j : nat) (m : LangGraphMessage) : Prop :=
  l !! j = Some m ∧ msg_id m ∉ msg_id <$> take j l.

(** The messages the inner loop keeps out of [l] when the ids of [seen] are
    already taken (the effect of folding [addIfUnseen] over [l]). *)
Fixpoint keptFrom `{JSUniverse} (seen : gset string)
    (l : list LangGraphMessage) : list LangGraphMessage :=
  match l with
  | [] => []
  | m :: l =>
      if decide (msg_id m ∈ seen) then keptFrom seen l
      else m :: keptFrom ({[msg_id m]} ∪ seen) l
  end.

Definition ids `{JSUniverse} (l : list LangGraphMessage) : list string :=
  msg_id <$> l.

(** The run id the snapshot events carry: the first run listed, or a
    generated one when the list is empty, absent, or the call failed. *)
Definition hydrationRunId `{Imports} (client : HistoryClientInterface)
    (threadId : string) : string :=
  match runs_list client 0 threadId with
  | Ok (Some (run :: _)) => run_id run
  | _ => "hydration_" +:+ Math_random_base36 0
  end.

(** The [STATE_SNAPSHOT] event of a checkpoint, if it has [values]. *)
Definition stateEvents `{JSUniverse} (latestState : ThreadState)
    (threadId runId : string) : list BaseEvent :=
  match values latestState with
  | Some v => [StateSnapshot v threadId runId]
  | None => []
  end.

(** The interrupt event for interrupt [i]. *)
Definition interruptEvent `{Imports} (i : Interrupt) (threadId runId : string)
  : BaseEvent :=
  CustomEvent "on_interrupt" (JSON_stringify (value i)) (value i)
    threadId runId.

(** The first interrupt of the first task, in task order, that has one. *)
Definition findInterrupt `{JSUniverse} (state : ThreadState)
  : option Interrupt :=
  match tasks state with
  | Some ts =>
      match List.filter hasInterrupts ts with
      | task :: _ => head (default [] (interrupts task))
      | [] => None
      end
  | None => None
  end.

(** The world [w] after the actions [t]. *)
Definition logged `{JSUniverse} (w : World) (t : list Action) : World :=
  {| trace := trace w ++ t;
     randoms := randoms w;
     listCalls := listCalls w;
     activeRun_manuallyEmittedState := activeRun_manuallyEmittedState w |}.

(** The world [w] after one more call of [runs.list]. *)
Definition listed `{JSUniverse} (w : World) (threadId : string) : World :=
  {| trace := trace w ++ [CallRunsList threadId];
     randoms := randoms w;
     listCalls := S (listCalls w);
     activeRun_manuallyEmittedState := activeRun_manuallyEmittedState w |}.

(** The state of the [for await] loop before the first chunk. *)
Definition initialJoinState `{JSUniverse} (runId : string)
    (carried : option (gmap string JSValue)) : JoinState :=
  {| startedMessages := ∅;
     startedToolCalls := ∅;
     currentRunId := runId;
     manuallyEmittedState := carried |}.

(** The call of [processStreamChunk] made for [chunk] in loop state [st]. *)
Definition chunkOutcome `{JSUniverse} `{!StreamProcessor}
    (this : HistoryHydratingAgentRunner) (threadId : string) (st : JoinState)
    (chunk : HistoryStreamChunk) : ProcessOutcome :=
  processStreamChunk chunk
    {| ctx_threadId := threadId;
       ctx_runId := currentRunId st;
       ctx_startedMessages := startedMessages st;
       ctx_startedToolCalls := startedToolCalls st;
       ctx_debug := debug this;
       ctx_manuallyEmittedState := manuallyEmittedState st |}.

(** The loop state after that call. *)
Definition nextJoinState `{JSUniverse} `{!StreamProcessor}
    (this : HistoryHydratingAgentRunner) (threadId : string) (st : JoinState)
    (chunk : HistoryStreamChunk) : JoinState :=
  let out := chunkOutcome this threadId st chunk in
  {| startedMessages := out_startedMessages out;
     startedToolCalls := out_startedToolCalls out;
     currentRunId :=
       match out_result out with
       | Ok result => res_runId result
       | Throw _ => currentRunId st
       end;
     manuallyEmittedState :=
       match out_result out with
       | Ok result => res_manuallyEmittedState result
       | Throw _ => manuallyEmittedState st
       end |}.

(** The events the translator pushes while the loop consumes [cs] from
    state [st], and the state the loop ends in. *)
Fixpoint streamEvents `{JSUniverse} `{!StreamProcessor}
    (this : HistoryHydratingAgentRunner) (threadId : string)
    (cs : list HistoryStreamChunk) (st : JoinState) : list BaseEvent :=
  match cs with
  | [] => []
  | chunk :: cs =>
      out_events (chunkOutcome this threadId st chunk) ++
      streamEvents this threadId cs (nextJoinState this threadId st chunk)
  end.

Fixpoint finalJoinState `{JSUniverse} `{!StreamProcessor}
    (this : HistoryHydratingAgentRunner) (threadId : string)
    (cs : list HistoryStreamChunk) (st : JoinState) : JoinState :=
  match cs with
  | [] => st
  | chunk :: cs =>
      finalJoinState this threadId cs (nextJoinState this threadId st chunk)
  end.

(** What follows the snapshot events in [hydrate]: the active-run check,
    the join or [RUN_FINISHED], and [subscriber.complete()]. *)
Definition activeRunPhase `{Imports} `{!Serializer} `{!StreamProcessor}
    (this : HistoryHydratingAgentRunner) (client : HistoryClientInterface)
    (latestState : ThreadState) (threadId runId : string) : M unit :=
  let* activeRun := findActiveRun client latestState threadId in
  joinOrFinish this client activeRun threadId runId ;;;
  subscriber_complete.

(** The interrupt event [emitInterrupt] pushes for a thread state, if any. *)
Definition interruptEvents `{Imports} (state : ThreadState)
    (threadId runId : string) : list BaseEvent :=
  match findInterruptedTask state with
  | Some task =>
      match interrupts task with
      | Some (i :: _) => [interruptEvent i threadId runId]
      | _ => []
      end
  | None => []
  end.


(** The world after a join whose stream ended normally in loop state [st]. *)
Definition joined `{JSUniverse} (w : World) (t : list Action) (st : JoinState)
  : World :=
  {| trace := trace w ++ t;
     randoms := randoms w;
     listCalls := listCalls w;
     activeRun_manuallyEmittedState := manuallyEmittedState st |}.

(** The error [emitInterrupt] throws for a thread state, if any: that of
    serialising the payload of its first interrupt. *)
Definition interruptError `{JSUniverse} `{!Serializer} (state : ThreadState)
  : option JSError :=
  match findInterruptedTask state with
  | Some task =>
      match interrupts task with
      | Some (i :: _) => stringify_error (value i)
      | _ => None
      end
  | None => None
  end.

(** The interrupt event of the final state fetch of a join, if the fetch
    succeeds and the state has an interrupt. An exception of the fetch or of
    the serialisation is caught there. *)
Definition finalInterruptEvents `{Imports} `{!Serializer}
    (client : HistoryClientInterface) (threadId runId : string)
  : list BaseEvent :=
  match threads_getState client threadId with
  | Ok threadState =>
      match interruptError threadState with
      | Some _ => []
      | None => interruptEvents threadState threadId runId
      end
  | Throw _ => []
  end.

(** ** The trace of each phase as a function of the backend's answers *)

(** The events [hydrate] emits from the history before it looks for an
    active run. *)
Definition snapshotEvents `{Imports} (transformedMessages : list Message)
    (latestState : ThreadState) (threadId runId : string) : list BaseEvent :=
  [RunStarted threadId runId;
   MessagesSnapshot transformedMessages threadId runId] ++
  stateEvents latestState threadId runId ++
  interruptEvents latestState threadId runId.

(** What [joinAndProcessStream] does when [activeRun] holds [carried]. *)
Definition joinActions `{Imports} `{!Serializer} `{!StreamProcessor}
    (this : HistoryHydratingAgentRunner) (client : HistoryClientInterface)
    (threadId runId : string) (carried : option (gmap string JSValue))
  : list Action :=
  CallJoinStream threadId runId streamModes ::
  match runs_joinStream client threadId runId streamModes with
  | Throw _ => [SubscriberNext (RunFinished threadId runId)]
  | Ok stream =>
      let st0 := initialJoinState runId carried in
      let st := finalJoinState this threadId (chunks stream) st0 in
      (SubscriberNext <$> streamEvents this threadId (chunks stream) st0) ++
      StreamEnded (failure stream) ::
      match failure stream with
      | Some _ => [SubscriberNext (RunFinished threadId runId)]
      | None =>
          CallGetState threadId ::
          (SubscriberNext <$>
             finalInterruptEvents client threadId (currentRunId st)) ++
          [SubscriberNext (RunFinished threadId (currentRunId st))]
      end
  end.

(** The value of [activeRun.manuallyEmittedState] after the join. *)
Definition joinCarried `{Imports} `{!StreamProcessor}
    (this : HistoryHydratingAgentRunner) (client : HistoryClientInterface)
    (threadId runId : string) (carried : option (gmap string JSValue))
  : option (gmap string JSValue) :=
  match runs_joinStream client threadId runId streamModes with
  | Throw _ => carried
  | Ok stream =>
      match failure stream with
      | Some _ => carried
      | None =>
          manuallyEmittedState
            (finalJoinState this threadId (chunks stream)
               (initialJoinState runId carried))
      end
  end.

(** The run [findActiveRun] finds in an answer of [runs.list]. *)
Definition activeRunIn (answer : Result (option (list HistoryRun)))
  : option HistoryRun :=
  match answer with
  | Ok (Some runs) => List.find isActive runs
  | _ => None
  end.

(** What [hydrate] does after the snapshot events, when [n] calls of
    [runs.list] were made before. *)
Definition activeRunActions `{Imports} `{!Serializer} `{!StreamProcessor}
    (this : HistoryHydratingAgentRunner) (client : HistoryClientInterface)
    (latestState : ThreadState) (threadId runId : string) (n : nat)
    (carried : option (gmap string JSValue)) : list Action :=
  (if isThreadBusy latestState then
     CallRunsList threadId ::
     match activeRunIn (runs_list client n threadId) with
     | Some run => joinActions this client threadId (run_id run) carried
     | None => [SubscriberNext (RunFinished threadId runId)]
     end
   else [SubscriberNext (RunFinished threadId runId)]) ++
  [SubscriberComplete].

(** What a fallback does when [n] random draws were made before. *)
Definition fallbackActions `{Imports} (prefix threadId : string) (n : nat)
  : list Action :=
  let fallbackRunId := prefix +:+ Math_random_base36 n in
  [SubscriberNext (RunStarted threadId fallbackRunId);
   SubscriberNext (MessagesSnapshot [] threadId fallbackRunId);
   SubscriberNext (RunFinished threadId fallbackRunId);
   SubscriberComplete].

(** The random draws [hydrate] has made once the run id is chosen. *)
Definition hydrationDraws `{JSUniverse} (client : HistoryClientInterface)
    (threadId : string) : nat :=
  match runs_list client 0 threadId with
  | Ok (Some (run :: _)) => 0
  | _ => 1
  end.

(** What [hydrate] does on a new subscription. *)
Definition hydrateActions `{Imports} `{!Serializer} `{!StreamProcessor}
    (this : HistoryHydratingAgentRunner) (client : HistoryClientInterface)
    (threadId : string) (carried : option (gmap string JSValue))
  : list Action :=
  CallGetHistory threadId (fetchLimit this) ::
  match threads_getHistory client threadId (fetchLimit this) with
  | Throw _ => fallbackActions "hydration_error_" threadId 0
  | Ok None | Ok (Some []) => fallbackActions "hydration_" threadId 0
  | Ok (Some (latestState :: older)) =>
      match transformMessages (messageLog this (latestState :: older))
              (debug this) with
      | Throw _ => fallbackActions "hydration_error_" threadId 0
      | Ok transformedMessages =>
          let runId := hydrationRunId client threadId in
          CallRunsList threadId ::
          match interruptError latestState with
          | Some _ =>
              (SubscriberNext <$>
                 [RunStarted threadId runId;
                  MessagesSnapshot transformedMessages threadId runId] ++
                 stateEvents latestState threadId runId) ++
              fallbackActions "hydration_error_" threadId
                (hydrationDraws client threadId)
          | None =>
              (SubscriberNext <$>
                 snapshotEvents transformedMessages latestState threadId
                   runId) ++
              activeRunActions this client latestState threadId runId 1
                carried
          end
      end
  end.


(** An action that is a call on the history client. *)
Definition isClientCall `{JSUniverse} (a : Action) : Prop :=
  match a with
  | CallGetHistory _ _ | CallGetState _ | CallRunsList _
  | CallJoinStream _ _ _ => True
  | _ => False
  end.

(** The events that open and close a run. *)
Definition is_run_boundary `{JSUniverse} (e : BaseEvent) : bool :=
  match e with
  | RunStarted _ _ | RunFinished _ _ => true
  | _ => false
  end.

(** A well-formed bracket on a thread: [RUN_STARTED] comes first,
    [RUN_FINISHED] last, and no run is opened or closed in between. The two
    run ids need not agree: after a join, [RUN_FINISHED] carries the id of
    the run joined. *)
Definition wellBracketed `{JSUniverse} (threadId : string)
    (es : list BaseEvent) : Prop :=
  ∃ runId inner runId',
    es = RunStarted threadId runId :: inner ++ [RunFinished threadId runId'] ∧
    Forall (fun e => is_run_boundary e = false) inner.

(** An action that is neither the completion nor the emission of a
    [RUN_STARTED] or [RUN_FINISHED]. *)
Definition isQuiet `{JSUniverse} (a : Action) : Prop :=
  match a with
  | SubscriberNext e => is_run_boundary e = false
  | SubscriberComplete => False
  | _ => True
  end.

(** The events [processStreamChunk] pushes during a [connect]: those of the
    stream of the active run, if there is one and its stream opens. *)
Definition liveEvents `{Imports} `{!StreamProcessor}
    (this : HistoryHydratingAgentRunner) (client : HistoryClientInterface)
    (latestState : ThreadState) (threadId : string)
    (carried : option (gmap string JSValue)) : list BaseEvent :=
  if isThreadBusy latestState then
    match activeRunIn (runs_list client 1 threadId) with
    | Some run =>
        match runs_joinStream client threadId (run_id run) streamModes with
        | Ok stream =>
            streamEvents this threadId (chunks stream)
              (initialJoinState (run_id run) carried)
        | Throw _ => []
        end
    | None => []
    end
  else [].

(** Events that open a message or a tool call with a given id. *)
Definition isMessageStart `{JSUniverse} (id : string) (e : BaseEvent) : bool :=
  match e with
  | TextMessageStart messageId _ _ => bool_decide (messageId = id)
  | _ => false
  end.

Definition isToolCallStart `{JSUniverse} (id : string) (e : BaseEvent) : bool :=
  match e with
  | ToolCallStart toolCallId _ _ _ => bool_decide (toolCallId = id)
  | _ => false
  end.

(** ** A concrete backend, for examples *)

Module Fixture.

(** Payloads are strings, transformed messages are message ids. *)
Definition universe : JSUniverse :=
  {| JSValue := string; Message := string |}.
#[local] Existing Instance universe.

Definition noClient : HistoryClientInterface :=
  {| threads_getHistory := fun _ _ => Throw "offline";
     threads_getState := fun _ => Throw "offline";
     runs_list := fun _ _ => Throw "offline";
     runs_joinStream := fun _ _ _ => Throw "offline" |}.

Definition imports : Imports :=
  {| JSON_stringify := fmap (fun v => "json:" +:+ v);
     Math_random_base36 := fun n => match n with 0 => "k3j9x" | _ => "q7w2m" end;
     sdkClient := fun _ => noClient;
     transformMessages := fun ms _ => Ok (msg_id <$> ms) |}.
#[local] Existing Instance imports.

(** Chunks are recognised by their [event] tag; [data] is the id of the
    message or tool call, or the value of the state key ["progress"]. *)
Definition reader : ChunkReader :=
  {| chunkShape := fun chunk =>
       if decide (event chunk = "message/content") then
         MessageChunk ChunkContent (data chunk) "Hel"
       else if decide (event chunk = "message/end") then
         MessageChunk ChunkEnd (data chunk) EmptyString
       else if decide (event chunk = "tool/args") then
         ToolCallChunk ChunkContent (data chunk) "search" "{"
       else if decide (event chunk = "state") then
         StateChunk {[ "progress" := data chunk ]}
       else UnrecognizedChunk;
     chunkRunId := fun _ => None |}.
#[local] Existing Instance reader.

Definition processor : StreamProcessor := specProcessor.
#[local] Existing Instance processor.

Definition message (id : string) : LangGraphMessage :=
  {| msg_id := id;
     msg_type := human;
     msg_content := ContentText "hi";
     msg_tool_calls := None;
     msg_tool_call_id := None |}.

Definition checkpoint (ids : list string) (steps : list string)
    (ts : list Task) : ThreadState :=
  {| values := Some {| messages := Some (message <$> ids);
                       other_values := ∅ |};
     next := Some steps;
     tasks := Some ts;
     created_at := None |}.

Definition run (id : string) (s : RunStatus) : HistoryRun :=
  {| run_id := id; status := s; thread_id := None; run_created_at := None |}.

Definition config (limit : option Z) : HistoryHydratingRunnerConfig :=
  {| cfg_deploymentUrl := Some "https://langgraph.example";
     cfg_graphId := Some "my-agent";
     cfg_client := None;
     cfg_langsmithApiKey := None;
     cfg_historyLimit := limit;
     cfg_clientTimeoutMs := None;
     cfg_debug := None |}.

Definition runner (limit : Z) : HistoryHydratingAgentRunner :=
  {| historyLimit := limit;
     debug := false;
     customClient := None;
     frozenConfig := None |}.

(** The scenario of the specification: two checkpoints, newest first; the
    thread is idle. *)
Definition history : list ThreadState :=
  [checkpoint ["a"; "b"] [] []; checkpoint ["a"] [] []].

Definition idleClient : HistoryClientInterface :=
  {| threads_getHistory := fun _ _ => Ok (Some history);
     threads_getState := fun _ => Throw "offline";
     runs_list := fun _ _ => Ok (Some [run "run-7" success]);
     runs_joinStream := fun _ _ _ => Throw "offline" |}.

Definition emptyClient : HistoryClientInterface :=
  {| threads_getHistory := fun _ _ => Ok (Some []);
     threads_getState := fun _ => Throw "offline";
     runs_list := fun _ _ => Throw "offline";
     runs_joinStream := fun _ _ _ => Throw "offline" |}.

Definition chunk (tag payload : string) : HistoryStreamChunk :=
  {| event := tag; data := payload |}.

(** A busy thread with a running run whose stream is joined midway. *)
Definition liveStream : ChunkStream :=
  {| chunks := [ chunk "message/content" "m1";
                 chunk "state" "half";
                 chunk "message/end" "m1" ];
     failure := None |}.

Definition busyClient : HistoryClientInterface :=
  {| threads_getHistory := fun _ _ =>
       Ok (Some [checkpoint ["a"] ["agent"] []]);
     threads_getState := fun _ => Ok (checkpoint ["a"] [] []);
     runs_list := fun _ _ =>
       Ok (Some [run "run-8" success; run "run-9" running]);
     runs_joinStream := fun _ _ _ => Ok liveStream |}.



(** A thread stopped at an interrupt: the second and third task carry
    interrupts, the first does not. *)
Definition interrupt (v : string) : Interrupt :=
  {| value := Some v; other_interrupt_keys := ∅ |}.

Definition task (id : string) (pending : option (list Interrupt)) : Task :=
  {| task_id := id; task_name := "node"; interrupts := pending |}.





(** A client handed over with the configuration that keeps its thread
    states in memory. The interrupt of its latest checkpoint carries a
    BigInt, written ["10n"] here, which [JSON.stringify] refuses. *)
Definition bigintSerializer : Serializer :=
  {| stringify_error := fun v =>
       if decide (v = Some "10n")
       then Some "TypeError: Do not know how to serialize a BigInt"
       else None |}.

Definition bigintTasks : list Task :=
  [task "t1" (Some [interrupt "10n"])].

Definition bigintClient : HistoryClientInterface :=
  {| threads_getHistory := fun _ _ =>
       Ok (Some [checkpoint ["a"] [] bigintTasks]);
     threads_getState := fun _ => Throw "offline";
     runs_list := fun _ _ => Ok (Some [run "run-7" interrupted]);
     runs_joinStream := fun _ _ _ => Throw "offline" |}.

End Fixture.

(** ** Dispatching a run ([run], [createFreshAgent]) *)

(** [LangGraphAgent] is a class of CopilotKit; the runner creates agents
    with [createIsolatedAgent] of [../utils/create-isolated-agent], and
    calls [setState] and [run] on them. *)
Class AgentImports := {
  LangGraphAgent : Type;
  (** [createIsolatedAgent({deploymentUrl, graphId, langsmithApiKey,
      clientTimeoutMs})] *)
  createIsolatedAgent : FrozenAgentConfig -> LangGraphAgent;
}.

(** [request.input] as [run] reads it: [threadId], [state],
    [forwardedProps], and the other keys. *)
Record RunInput `{JSUniverse} := {
  input_threadId : string;
  input_state : option (gmap string JSValue);
  input_forwardedProps : option JSValue;
  input_others : gmap string JSValue;
}.

(** [StateExtractor]; as any function it may throw. *)
Definition StateExtractor `{JSUniverse} : Type :=
  RunInput -> option JSValue -> Result (gmap string JSValue).

(** The fields [agent] and [stateExtractor] of the runner, which the
    constructor copies from the configuration. *)
Record RunnerDelegate `{JSUniverse} `{AgentImports} := {
  agent : LangGraphAgent;
  stateExtractor : option StateExtractor;
}.

(** The calls [run] makes on an agent. *)
Inductive AgentCall `{JSUniverse} `{AgentImports} :=
| AgentSetState (a : LangGraphAgent) (state : gmap string JSValue)
| AgentRun (a : LangGraphAgent) (input : RunInput).

(** [createFreshAgent()] *)
Definition createFreshAgent `{JSUniverse} `{AgentImports}
    (this : HistoryHydratingAgentRunner) : Result LangGraphAgent :=
  match frozenConfig this with
  | None =>
      Throw ("Cannot create agent: frozenConfig is not available. " +:+
             "When using a custom client, you must still provide deploymentUrl and graphId for agent creation.")
  | Some frozen =>
      Ok (createIsolatedAgent
            {| deploymentUrl := deploymentUrl frozen;
               graphId := graphId frozen;
               langsmithApiKey := langsmithApiKey frozen;
               clientTimeoutMs := clientTimeoutMs frozen |})
  end.

(** [{ ...existingState, ...extractedState }]: the keys of the second win. *)
Definition spread `{JSUniverse} (existingState extractedState : gmap string JSValue)
  : gmap string JSValue :=
  extractedState ∪ existingState.

(** [run(request)]. The result lists the calls made on the agent, in order;
    the value [run] returns is what the last of them returns. *)
Definition run `{JSUniverse} `{AgentImports}
    (this : HistoryHydratingAgentRunner) (delegate : RunnerDelegate)
    (input : RunInput) : Result (list AgentCall) :=
  let agentToUse :=
    match customClient this with
    | Some _ => Ok (agent delegate)
    | None => createFreshAgent this
    end in
  match agentToUse with
  | Throw e => Throw e
  | Ok agentToUse =>
      let forwardedProps := input_forwardedProps input in
      (* request.input.state || {} *)
      let existingState := default ∅ (input_state input) in
      let enrichedState :=
        match stateExtractor delegate with
        | Some extractor =>
            match extractor input forwardedProps with
            | Ok extractedState => Ok (spread existingState extractedState)
            | Throw e => Throw e
            end
        | None => Ok existingState
        end in
      match enrichedState with
      | Throw e => Throw e
      | Ok enrichedState =>
          let inputWithState :=
            {| input_threadId := input_threadId input;
               input_state := Some enrichedState;
               input_forwardedProps := input_forwardedProps input;
               input_others := input_others input |} in
          Ok [AgentSetState agentToUse enrichedState;
              AgentRun agentToUse inputWithState]
      end
  end.

(** ** Further vocabulary *)

(** Kinds of calls on the history client. *)
Definition isGetHistory `{JSUniverse} (a : Action) : bool :=
  match a with CallGetHistory _ _ => true | _ => false end.
Definition isRunsList `{JSUniverse} (a : Action) : bool :=
  match a with CallRunsList _ => true | _ => false end.
Definition isJoinStream `{JSUniverse} (a : Action) : bool :=
  match a with CallJoinStream _ _ _ => true | _ => false end.
Definition isGetState `{JSUniverse} (a : Action) : bool :=
  match a with CallGetState _ => true | _ => false end.

(** How many actions of a trace satisfy [p]. *)
Definition count `{JSUniverse} (p : Action -> bool) (t : list Action) : nat :=
  length (List.filter p t).

(** Message lists in chronological order in which every list extends the
    one before it (checkpoints as cumulative snapshots). *)
Fixpoint cumulative `{JSUniverse} (snapshots : list (list LangGraphMessage))
  : Prop :=
  match snapshots with
  | a :: rest =>
      match rest with
      | b :: _ => a `prefix_of` b ∧ cumulative rest
      | [] => True
      end
  | [] => True
  end.

(** ** A concrete deployment, for examples *)

Module RunFixture.

#[local] Existing Instance Fixture.universe.

(** Agents are named by strings; a fresh agent is named after the URL it
    was made for. *)
Definition agents : AgentImports :=
  {| LangGraphAgent := string;
     createIsolatedAgent := fun frozen => "fresh:" +:+ deploymentUrl frozen |}.
#[local] Existing Instance agents.

(** The runner the constructor builds from [Fixture.config]. *)
Definition platformRunner (limit : option Z) : HistoryHydratingAgentRunner :=
  {| historyLimit := Z.min (nullish limit 100%Z) 1000%Z;
     debug := false;
     customClient := None;
     frozenConfig :=
       Some {| deploymentUrl := "https://langgraph.example";
               graphId := "my-agent";
               langsmithApiKey := None;
               clientTimeoutMs := 1800000%Z |} |}.

(** An extractor that takes the user from the forwarded properties. *)
Definition userExtractor : StateExtractor :=
  fun _ forwardedProps =>
    match forwardedProps with
    | Some user => Ok {[ "user" := user ]}
    | None => Throw "no forwarded properties"
    end.

Definition delegate : RunnerDelegate :=
  {| agent := "configured"; stateExtractor := Some userExtractor |}.

Definition input : RunInput :=
  {| input_threadId := "thread-1";
     input_state := Some {[ "user" := "nobody"; "plan" := "draft" ]};
     input_forwardedProps := Some "ada";
     input_others := ∅ |}.

Definition enriched : gmap string string :=
  {[ "user" := "ada"; "plan" := "draft" ]}.

Definition dispatched : list AgentCall :=
  [AgentSetState "fresh:https://langgraph.example" enriched;
   AgentRun "fresh:https://langgraph.example"
     {| input_threadId := "thread-1";
        input_state := Some enriched;
        input_forwardedProps := Some "ada";
        input_others := ∅ |}].


End RunFixture.

(** * Properties *)

(** ** The message log *)

Section MessageLog.
Context `{U : JSUniverse}.

Implicit Types (l all : list LangGraphMessage) (seen : gset string).

Lemma foldl_addIfUnseen l all seen :
  foldl addIfUnseen (all, seen) l =
  (all ++ keptFrom seen l, list_to_set (ids (keptFrom seen l)) ∪ seen).
Proof.
  revert all seen. induction l as [|m l IH]; intros all seen; simpl.
  - rewrite app_nil_r. f_equal. set_solver.
  - destruct (decide (msg_id m ∈ seen)) as [Hin|Hin].
    + apply IH.
    + rewrite IH, <- app_assoc. simpl. f_equal. set_solver.
Qed.

Lemma keptFrom_app seen l1 l2 :
  keptFrom seen (l1 ++ l2) =
  keptFrom seen l1 ++
  keptFrom (list_to_set (ids (keptFrom seen l1)) ∪ seen) l2.
Proof.
  revert seen. induction l1 as [|m l1 IH]; intros seen; simpl.
  - f_equal. set_solver.
  - destruct (decide (msg_id m ∈ seen)) as [Hin|Hin].
    + apply IH.
    + rewrite IH. simpl. do 3 f_equal. unfold ids. set_solver.
Qed.

Lemma addCheckpoint_foldl acc state :
  addCheckpoint acc state = foldl addIfUnseen acc (checkpointMessages state).
Proof.
  unfold addCheckpoint, checkpointMessages.
  destruct (values state) as [v|]; [|done].
  by destruct (messages v).
Qed.

Lemma foldl_addCheckpoint history all seen :
  fst (foldl addCheckpoint (all, seen) history) =
  all ++ keptFrom seen (concat (checkpointMessages <$> history)).
Proof.
  revert all seen.
  induction history as [|state history IH]; intros all seen; simpl.
  - by rewrite app_nil_r.
  - rewrite addCheckpoint_foldl, foldl_addIfUnseen, IH, keptFrom_app.
    by rewrite app_assoc.
Qed.

Lemma collectMessages_keptFrom history :
  collectMessages history =
  keptFrom ∅ (concat (checkpointMessages <$> history)).
Proof. unfold collectMessages. by rewrite foldl_addCheckpoint. Qed.

Lemma keptFrom_fresh seen l m :
  m ∈ keptFrom seen l → msg_id m ∉ seen.
Proof.
  revert seen. induction l as [|m0 l IH]; intros seen; simpl.
  - by intros ?%elem_of_nil.
  - destruct (decide (msg_id m0 ∈ seen)) as [Hin|Hin]; [by apply IH|].
    intros [->|Hm]%elem_of_cons; [done|].
    apply IH in Hm. set_solver.
Qed.

Lemma keptFrom_NoDup seen l : NoDup (ids (keptFrom seen l)).
Proof.
  revert seen. induction l as [|m0 l IH]; intros seen; simpl.
  - constructor.
  - destruct (decide (msg_id m0 ∈ seen)) as [Hin|Hin]; [by apply IH|].
    unfold ids. rewrite fmap_cons. constructor; [|by apply IH].
    intros (m & Heq & Hm)%list_elem_of_fmap.
    apply keptFrom_fresh in Hm. set_solver.
Qed.

Lemma keptFrom_complete seen l m :
  m ∈ l → msg_id m ∈ seen ∨ msg_id m ∈ ids (keptFrom seen l).
Proof.
  revert seen. induction l as [|m0 l IH]; intros seen; simpl.
  - by intros ?%elem_of_nil.
  - intros Hm. destruct (decide (msg_id m0 ∈ seen)) as [Hin|Hin].
    + apply elem_of_cons in Hm as [->|Hm]; [by left|by apply IH].
    + unfold ids. rewrite fmap_cons.
      apply elem_of_cons in Hm as [->|Hm]; [right; by left|].
      destruct (IH ({[msg_id m0]} ∪ seen) Hm) as [Hs|Hk].
      * apply elem_of_union in Hs as [->%elem_of_singleton|Hs];
          [right; by left|by left].
      * right. by right.
Qed.

Lemma keptFrom_lookup seen l i m :
  keptFrom seen l !! i = Some m →
  (msg_id m ∉ seen) ∧ ∃ j, firstOccurrenceAt l j m.
Proof.
  revert seen i. induction l as [|m0 l IH]; intros seen i; simpl; [done|].
  destruct (decide (msg_id m0 ∈ seen)) as [Hin|Hin].
  - intros (Hm & j & Hj & Hfirst)%IH. split; [done|].
    exists (S j). split; [done|]. simpl.
    intros [Heq|?]%elem_of_cons; [congruence|done].
  - destruct i as [|i]; simpl.
    + intros [= ->]. split; [done|]. exists 0. split; [done|]. simpl.
      apply not_elem_of_nil.
    + intros (Hm & j & Hj & Hfirst)%IH. split; [set_solver|].
      exists (S j). split; [done|]. simpl.
      intros [Heq|?]%elem_of_cons; [|done]. set_solver.
Qed.

Lemma keptFrom_order seen l i1 i2 m1 m2 :
  i1 < i2 →
  keptFrom seen l !! i1 = Some m1 →
  keptFrom seen l !! i2 = Some m2 →
  ∃ j1 j2, j1 < j2 ∧ firstOccurrenceAt l j1 m1 ∧ firstOccurrenceAt l j2 m2.
Proof.
  revert seen i1 i2. induction l as [|m0 l IH]; intros seen i1 i2 Hlt;
    simpl; [done|].
  assert (Hshift : ∀ j m, msg_id m ≠ msg_id m0 →
            firstOccurrenceAt l j m → firstOccurrenceAt (m0 :: l) (S j) m).
  { intros j m Hne [Hj Hfirst]. split; [done|]. simpl.
    intros [Heq|?]%elem_of_cons; [congruence|done]. }
  destruct (decide (msg_id m0 ∈ seen)) as [Hin|Hin].
  - intros H1 H2.
    destruct (keptFrom_lookup _ _ _ _ H1) as [Hs1 _].
    destruct (keptFrom_lookup _ _ _ _ H2) as [Hs2 _].
    destruct (IH _ _ _ Hlt H1 H2) as (j1 & j2 & Hj & F1 & F2).
    exists (S j1), (S j2). split; [lia|].
    split; apply Hshift; try done; congruence.
  - destruct i2 as [|i2]; [lia|]. destruct i1 as [|i1]; simpl.
    + intros [= ->] H2.
      destruct (keptFrom_lookup _ _ _ _ H2) as (Hs2 & j2 & F2).
      exists 0, (S j2). split; [lia|]. split.
      * split; [done|]. simpl. apply not_elem_of_nil.
      * apply Hshift; [set_solver|done].
    + intros H1 H2.
      destruct (keptFrom_lookup _ _ _ _ H1) as [Hs1 _].
      destruct (keptFrom_lookup _ _ _ _ H2) as [Hs2 _].
      assert (Hlt' : i1 < i2) by lia.
      destruct (IH _ _ _ Hlt' H1 H2) as (j1 & j2 & Hj & F1 & F2).
      exists (S j1), (S j2). split; [lia|].
      split; apply Hshift; try done; set_solver.
Qed.

(** C1. The message log rebuilt from a history holds no id twice, holds
    the id of every message of the history, and lists the messages by
    first occurrence in chronological order: each entry is the earliest
    message carrying its id, and entries stand in the order of these
    earliest occurrences. *)
Theorem C1_message_log_is_deduplicated_in_first_occurrence_order
    (history : list ThreadState) :
  let flat := chronological history in
  let log := collectMessages (reverse history) in
  NoDup (msg_id <$> log) ∧
  (∀ m, m ∈ flat → msg_id m ∈ msg_id <$> log) ∧
  (∀ i m, log !! i = Some m → ∃ j, firstOccurrenceAt flat j m) ∧
  (∀ i1 i2 m1 m2,
      i1 < i2 → log !! i1 = Some m1 → log !! i2 = Some m2 →
      ∃ j1 j2, j1 < j2 ∧
               firstOccurrenceAt flat j1 m1 ∧ firstOccurrenceAt flat j2 m2).
Proof.
  intros flat log. subst flat log. unfold chronological.
  rewrite collectMessages_keptFrom.
  split; [apply keptFrom_NoDup|]. split; [|split].
  - intros m Hm.
    destruct (keptFrom_complete ∅ _ _ Hm) as [Hs|Hk]; [set_solver|done].
  - intros i m Hi. by destruct (keptFrom_lookup _ _ _ _ Hi).
  - intros i1 i2 m1 m2. apply keptFrom_order.
Qed.
End MessageLog.

(** ** Limits *)

Lemma slice_last {A} (k : Z) (l : list A) :
  (0 < k)%Z → slice (- k) l = drop (length l - Z.to_nat k) l.
Proof.
  intros Hk. unfold slice.
  destruct (Z.ltb_spec (- k) 0) as [_|?]; [|lia].
  f_equal. lia.
Qed.

Lemma limitMessages_positive `{JSUniverse} this (l : list LangGraphMessage) :
  (0 < historyLimit this)%Z →
  limitMessages this l = drop (length l - Z.to_nat (historyLimit this)) l.
Proof.
  intros Hk. unfold limitMessages.
  destruct (Z.ltb_spec 0 (historyLimit this)) as [_|?]; [|lia].
  by apply slice_last.
Qed.

Lemma limitMessages_nonpositive `{JSUniverse} this (l : list LangGraphMessage) :
  (historyLimit this ≤ 0)%Z → limitMessages this l = l.
Proof.
  intros Hk. unfold limitMessages.
  by destruct (Z.ltb_spec 0 (historyLimit this)) as [?|_]; [lia|].
Qed.

(** ** Running the monad *)

Section Runs.
Context `{I : Imports} `{S : !Serializer} `{!StreamProcessor}.

Implicit Types (w : World) (this : HistoryHydratingAgentRunner)
  (client : HistoryClientInterface).

Lemma logged_nil w : logged w [] = w.
Proof. destruct w. unfold logged. simpl. by rewrite app_nil_r. Qed.

Lemma logged_logged w t1 t2 : logged (logged w t1) t2 = logged w (t1 ++ t2).
Proof. unfold logged. simpl. by rewrite app_assoc. Qed.

Lemma act_run a w : act a w = (Ok tt, logged w [a]).
Proof. done. Qed.

Lemma subscriber_next_all_run es w :
  subscriber_next_all es w = (Ok tt, logged w (SubscriberNext <$> es)).
Proof.
  revert w. induction es as [|e es IH]; intros w; simpl.
  - by rewrite logged_nil.
  - unfold bind, subscriber_next. rewrite act_run, IH, logged_logged. done.
Qed.

Lemma processChunk_run this threadId st chunk w :
  processChunk this threadId st chunk w =
  (Ok (nextJoinState this threadId st chunk),
   logged w (SubscriberNext <$> out_events (chunkOutcome this threadId st chunk))).
Proof.
  unfold processChunk, nextJoinState, chunkOutcome, bind.
  rewrite subscriber_next_all_run.
  by destruct (out_result _).
Qed.

Lemma forAwait_run this threadId cs st w :
  forAwait this threadId cs st w =
  (Ok (finalJoinState this threadId cs st),
   logged w (SubscriberNext <$> streamEvents this threadId cs st)).
Proof.
  revert st w. induction cs as [|chunk cs IH]; intros st w; simpl.
  - by rewrite logged_nil.
  - unfold bind at 1. rewrite processChunk_run, IH, logged_logged.
    by rewrite fmap_app.
Qed.

(** The interrupt block either throws the error of the serialisation,
    with nothing emitted, or emits the interrupt event, if there is one. *)
Lemma emitInterrupt_run state threadId runId w :
  emitInterrupt (findInterruptedTask state) threadId runId w =
  match interruptError state with
  | Some typeError => (Throw typeError, w)
  | None =>
      (Ok tt,
       logged w (SubscriberNext <$> interruptEvents state threadId runId))
  end.
Proof.
  unfold emitInterrupt, interruptEvents, interruptError.
  destruct (findInterruptedTask state) as [task|];
    [destruct (interrupts task) as [[|i rest]|]|]; simpl;
    try (by unfold ret; rewrite logged_nil).
  by destruct (stringify_error (value i)).
Qed.

Lemma emitState_run latestState threadId runId w :
  emitState latestState threadId runId w =
  (Ok tt, logged w (SubscriberNext <$> stateEvents latestState threadId runId)).
Proof.
  unfold emitState, stateEvents.
  destruct (values latestState); simpl; [done|].
  by unfold ret; rewrite logged_nil.
Qed.

(** *** [joinAndProcessStream], case by case *)

Lemma join_open_fails this client threadId runId e w :
  runs_joinStream client threadId runId streamModes = Throw e →
  joinAndProcessStream this client threadId runId w =
  (Throw e,
   logged w [CallJoinStream threadId runId streamModes;
             SubscriberNext (RunFinished threadId runId)]).
Proof.
  intros Hopen. unfold joinAndProcessStream, try_catch, client_joinStream.
  unfold bind at 1. unfold bind at 1. rewrite act_run. unfold lift.
  rewrite Hopen. unfold bind, subscriber_next, throw.
  rewrite act_run, logged_logged. done.
Qed.

Lemma join_stream_fails this client threadId runId stream e w :
  runs_joinStream client threadId runId streamModes = Ok stream →
  failure stream = Some e →
  joinAndProcessStream this client threadId runId w =
  (Throw e,
   logged w
     ([CallJoinStream threadId runId streamModes] ++
      (SubscriberNext <$>
         streamEvents this threadId (chunks stream)
           (initialJoinState runId (activeRun_manuallyEmittedState w))) ++
      [StreamEnded (Some e);
       SubscriberNext (RunFinished threadId runId)])).
Proof.
  intros Hopen Hfail.
  unfold joinAndProcessStream, try_catch, client_joinStream.
  unfold bind at 1. unfold bind at 1. unfold bind at 1.
  rewrite act_run. unfold lift. rewrite Hopen.
  unfold bind at 1. unfold get_manuallyEmittedState.
  unfold bind at 1. rewrite forAwait_run.
  unfold bind at 1. rewrite act_run, Hfail. unfold throw.
  unfold bind, subscriber_next. rewrite act_run, !logged_logged.
  simpl. by rewrite <- ?app_assoc.
Qed.

Lemma join_stream_ends this client threadId runId stream w :
  runs_joinStream client threadId runId streamModes = Ok stream →
  failure stream = None →
  let st0 := initialJoinState runId (activeRun_manuallyEmittedState w) in
  let st := finalJoinState this threadId (chunks stream) st0 in
  joinAndProcessStream this client threadId runId w =
  (Ok tt,
   joined w
     ([CallJoinStream threadId runId streamModes] ++
      (SubscriberNext <$> streamEvents this threadId (chunks stream) st0) ++
      [StreamEnded None; CallGetState threadId] ++
      (SubscriberNext <$>
         finalInterruptEvents client threadId (currentRunId st)) ++
      [SubscriberNext (RunFinished threadId (currentRunId st))])
     st).
Proof.
  intros Hopen Hfail st0 st.
  unfold joinAndProcessStream, try_catch at 1, client_joinStream.
  unfold bind at 1. unfold bind at 1. unfold bind at 1.
  rewrite act_run. unfold lift. rewrite Hopen.
  unfold bind at 1. unfold get_manuallyEmittedState.
  unfold bind at 1. rewrite forAwait_run.
  unfold bind at 1. rewrite act_run, Hfail.
  unfold bind at 1. unfold set_manuallyEmittedState.
  unfold bind at 1. unfold try_catch, client_getState.
  unfold bind at 1. unfold bind at 1. rewrite act_run. unfold lift.
  unfold finalInterruptEvents. fold st0. fold st.
  destruct (threads_getState client threadId) as [threadState|stateError];
    simpl.
  - rewrite emitInterrupt_run.
    destruct (interruptError threadState) as [typeError|];
      unfold subscriber_next, act, joined, logged;
      simpl; do 2 f_equal; rewrite <- ?app_assoc; simpl;
      by rewrite <- ?app_assoc.
  - unfold subscriber_next, act, joined, logged.
    simpl. do 2 f_equal. rewrite <- ?app_assoc. simpl.
    by rewrite <- ?app_assoc.
Qed.

Lemma join_trace this client threadId runId w :
  trace (snd (joinAndProcessStream this client threadId runId w)) =
  trace w ++
  joinActions this client threadId runId (activeRun_manuallyEmittedState w).
Proof.
  unfold joinActions.
  destruct (runs_joinStream client threadId runId streamModes)
    as [stream|e] eqn:Hopen.
  - destruct (failure stream) as [e|] eqn:Hfail.
    + by rewrite (join_stream_fails _ _ _ _ _ _ _ Hopen Hfail).
    + by rewrite (join_stream_ends _ _ _ _ _ _ Hopen Hfail).
  - by rewrite (join_open_fails _ _ _ _ _ _ Hopen).
Qed.

Lemma join_carried this client threadId runId w :
  activeRun_manuallyEmittedState
    (snd (joinAndProcessStream this client threadId runId w)) =
  joinCarried this client threadId runId (activeRun_manuallyEmittedState w).
Proof.
  unfold joinCarried.
  destruct (runs_joinStream client threadId runId streamModes)
    as [stream|e] eqn:Hopen.
  - destruct (failure stream) as [e|] eqn:Hfail.
    + by rewrite (join_stream_fails _ _ _ _ _ _ _ Hopen Hfail).
    + by rewrite (join_stream_ends _ _ _ _ _ _ Hopen Hfail).
  - by rewrite (join_open_fails _ _ _ _ _ _ Hopen).
Qed.

Lemma join_counters this client threadId runId w :
  randoms (snd (joinAndProcessStream this client threadId runId w)) =
    randoms w ∧
  listCalls (snd (joinAndProcessStream this client threadId runId w)) =
    listCalls w.
Proof.
  destruct (runs_joinStream client threadId runId streamModes)
    as [stream|e] eqn:Hopen.
  - destruct (failure stream) as [e|] eqn:Hfail.
    + by rewrite (join_stream_fails _ _ _ _ _ _ _ Hopen Hfail).
    + by rewrite (join_stream_ends _ _ _ _ _ _ Hopen Hfail).
  - by rewrite (join_open_fails _ _ _ _ _ _ Hopen).
Qed.

(** *** The active-run phase *)

Lemma findActiveRun_run client latestState threadId w :
  findActiveRun client latestState threadId w =
  if isThreadBusy latestState
  then (Ok (activeRunIn (runs_list client (listCalls w) threadId)),
        listed w threadId)
  else (Ok None, w).
Proof.
  unfold findActiveRun. destruct (isThreadBusy latestState); [|done].
  unfold try_catch, bind, client_runs_list, activeRunIn, listed, ret.
  by destruct (runs_list client (listCalls w) threadId) as [[runs|]|e].
Qed.

Lemma joinOrFinish_run this client activeRun threadId runId w :
  fst (joinOrFinish this client activeRun threadId runId w) = Ok tt ∧
  trace (snd (joinOrFinish this client activeRun threadId runId w)) =
  trace w ++
  match activeRun with
  | Some run =>
      joinActions this client threadId (run_id run)
        (activeRun_manuallyEmittedState w)
  | None => [SubscriberNext (RunFinished threadId runId)]
  end.
Proof.
  unfold joinOrFinish. destruct activeRun as [run|]; [|done].
  unfold try_catch.
  pose proof (join_trace this client threadId (run_id run) w) as Ht.
  by destruct (joinAndProcessStream this client threadId (run_id run) w)
    as [[[]|e] w'].
Qed.

Lemma activeRunPhase_run this client latestState threadId runId w :
  fst (activeRunPhase this client latestState threadId runId w) = Ok tt ∧
  trace (snd (activeRunPhase this client latestState threadId runId w)) =
  trace w ++
  activeRunActions this client latestState threadId runId (listCalls w)
    (activeRun_manuallyEmittedState w).
Proof.
  unfold activeRunPhase, activeRunActions.
  unfold bind. rewrite findActiveRun_run.
  destruct (isThreadBusy latestState).
  - match goal with
    | |- context [joinOrFinish ?t ?c ?a ?i ?r ?w0] =>
        destruct (joinOrFinish_run t c a i r w0) as [Hok Ht];
        destruct (joinOrFinish t c a i r w0) as [res w']
    end.
    simpl in Hok, Ht. subst res. split; [done|]. simpl.
    rewrite Ht. unfold listed. simpl. by rewrite <- ?app_assoc.
  - destruct (joinOrFinish_run this client None threadId runId w)
      as [Hok Ht].
    destruct (joinOrFinish this client None threadId runId w) as [res w'].
    simpl in Hok, Ht. subst res. split; [done|]. simpl.
    rewrite Ht. by rewrite <- ?app_assoc.
Qed.

(** *** [hydrate] *)

Lemma fallback_run prefix threadId w :
  fst (fallback prefix threadId w) = Ok tt ∧
  trace (snd (fallback prefix threadId w)) =
  trace w ++ fallbackActions prefix threadId (randoms w).
Proof.
  unfold fallback, fallbackActions, bind, random_id, subscriber_next,
    subscriber_complete, act. simpl. split; [done|].
  by rewrite <- ?app_assoc.
Qed.

Lemma latestRunId_run client threadId w :
  listCalls w = 0 → randoms w = 0 →
  ∃ w', latestRunId client threadId w =
          (Ok (hydrationRunId client threadId), w') ∧
        trace w' = trace w ++ [CallRunsList threadId] ∧
        listCalls w' = 1 ∧
        activeRun_manuallyEmittedState w' = activeRun_manuallyEmittedState w ∧
        randoms w' = hydrationDraws client threadId.
Proof.
  intros Hl Hr.
  unfold latestRunId, hydrationRunId, hydrationDraws, try_catch, bind,
    client_runs_list.
  rewrite Hl.
  destruct (runs_list client 0 threadId) as [[[|run runs]|]|e];
    unfold ret, random_id; simpl; rewrite ?Hr, ?Hl;
    eexists; (split; [reflexivity|]); simpl; by rewrite ?Hl, ?Hr.
Qed.

Lemma last_reverse_cons {A} (x : A) (l : list A) :
  last (reverse (x :: l)) = Some x.
Proof. by rewrite reverse_cons, last_snoc. Qed.

(** The [try] block either ends normally, or throws: when the history
    fetch fails or [transformMessages] throws, before anything was pushed
    to the subscriber, and when the interrupt payload of the latest
    checkpoint cannot be serialised, after the snapshot events. What the
    handler then adds is the rest of [hydrateActions]. *)
Lemma hydrateBody_run this client threadId carried :
  ∃ r w', hydrateBody this client threadId (subscribe carried) = (r, w') ∧
          match r with
          | Ok _ => trace w' = hydrateActions this client threadId carried
          | Throw _ =>
              hydrateActions this client threadId carried =
              trace w' ++
              fallbackActions "hydration_error_" threadId (randoms w')
          end.
Proof.
  unfold hydrateActions, hydrateBody.
  unfold bind at 1. unfold client_getHistory. unfold bind at 1.
  rewrite act_run. unfold lift.
  destruct (threads_getHistory client threadId (fetchLimit this))
    as [[[|latestState older]|]|e].
  1, 3:
    match goal with
    | |- context [fallback ?p ?t ?w0] =>
        destruct (fallback_run p t w0) as [Hok Ht];
        destruct (fallback p t w0) as [res w'];
        simpl in Hok, Ht; subst res;
        exists (Ok tt), w'; split; [done|]; by rewrite Ht
    end.
  2: { eexists (Throw e), _. split; [reflexivity|]. done. }
  fold (messageLog this (latestState :: older)).
  unfold bind at 1. unfold lift.
  destruct (transformMessages (messageLog this (latestState :: older))
              (debug this)) as [transformedMessages|e].
  2: { eexists (Throw e), _. split; [reflexivity|]. done. }
  unfold bind at 1.
  destruct (latestRunId_run client threadId
              (logged (subscribe carried)
                 [CallGetHistory threadId (fetchLimit this)]))
    as (w1 & -> & Ht1 & Hl1 & Hc1 & Hr1); [done..|].
  rewrite last_reverse_cons.
  unfold bind at 1. unfold subscriber_next at 1. rewrite act_run.
  unfold bind at 1. unfold subscriber_next at 1. rewrite act_run.
  unfold bind at 1. rewrite emitState_run.
  unfold bind at 1. rewrite emitInterrupt_run.
  destruct (interruptError latestState) as [typeError|].
  { eexists (Throw typeError), _. split; [reflexivity|].
    simpl. rewrite Ht1, Hr1. simpl.
    by rewrite <- ?app_assoc. }
  fold (activeRunPhase this client latestState threadId
          (hydrationRunId client threadId)).
  match goal with
  | |- context [activeRunPhase ?t ?c ?s ?i ?r ?w0] =>
      destruct (activeRunPhase_run t c s i r w0) as [Hok Ht];
      destruct (activeRunPhase t c s i r w0) as [res w']
  end.
  simpl in Hok, Ht. subst res. exists (Ok tt), w'. split; [done|].
  rewrite Ht, Ht1, Hl1, Hc1. unfold snapshotEvents. simpl.
  rewrite <- ?app_assoc. simpl. rewrite fmap_app. by rewrite <- ?app_assoc.
Qed.

Lemma hydrate_run this client threadId carried :
  ∃ w', hydrate this client threadId (subscribe carried) = (Ok tt, w') ∧
        trace w' = hydrateActions this client threadId carried.
Proof.
  unfold hydrate, try_catch.
  destruct (hydrateBody_run this client threadId carried)
    as ([[]|e] & w' & -> & Hw).
  - by exists w'.
  - rewrite Hw.
    match goal with
    | |- context [fallback ?p ?t ?w0] =>
        destruct (fallback_run p t w0) as [Hok Ht];
        destruct (fallback p t w0) as [res w'']
    end.
    simpl in Hok, Ht. subst res. exists w''. split; [done|]. by rewrite Ht.
Qed.

Lemma hydrate_trace this client threadId carried :
  trace (snd (hydrate this client threadId (subscribe carried))) =
  hydrateActions this client threadId carried.
Proof.
  destruct (hydrate_run this client threadId carried) as (w' & Heq & Ht).
  by rewrite Heq.
Qed.

(** *** Reading a trace *)

Lemma events_app (t1 t2 : list Action) :
  events (t1 ++ t2) = events t1 ++ events t2.
Proof. apply omap_app. Qed.

Lemma events_next (es : list BaseEvent) : events (SubscriberNext <$> es) = es.
Proof. induction es as [|e es IH]; [done|]. simpl. by f_equal. Qed.

Lemma find_filter {A} (f : A → bool) (l : list A) :
  List.find f l = head (List.filter f l).
Proof. induction l as [|x l IH]; [done|]. simpl. by destruct (f x). Qed.

Lemma interruptEvents_findInterrupt state threadId runId :
  interruptEvents state threadId runId =
  match findInterrupt state with
  | Some i => [interruptEvent i threadId runId]
  | None => []
  end.
Proof.
  unfold interruptEvents, findInterrupt, findInterruptedTask.
  destruct (tasks state) as [ts|]; [|done].
  rewrite find_filter.
  destruct (List.filter hasInterrupts ts) as [|task rest] eqn:Hf; [done|].
  simpl. destruct (interrupts task) as [[|i others]|]; done.
Qed.

Lemma interruptError_findInterrupt state :
  interruptError state =
  match findInterrupt state with
  | Some i => stringify_error (value i)
  | None => None
  end.
Proof.
  unfold interruptError, findInterrupt, findInterruptedTask.
  destruct (tasks state) as [ts|]; [|done].
  rewrite find_filter.
  destruct (List.filter hasInterrupts ts) as [|task rest] eqn:Hf; [done|].
  simpl. destruct (interrupts task) as [[|i others]|]; done.
Qed.

Lemma complete_not_next (es : list BaseEvent) :
  SubscriberComplete ∉ SubscriberNext <$> es.
Proof. by intros (e & ? & _)%list_elem_of_fmap. Qed.

Lemma joinActions_shape this client threadId runId carried :
  ∃ body runId',
    joinActions this client threadId runId carried =
    body ++ [SubscriberNext (RunFinished threadId runId')] ∧
    SubscriberComplete ∉ body.
Proof.
  unfold joinActions.
  destruct (runs_joinStream client threadId runId streamModes)
    as [stream|e].
  - destruct (failure stream) as [e|].
    + eexists (_ :: _ ++ [_]), _. split.
      * simpl. by rewrite <- app_assoc.
      * rewrite not_elem_of_cons, not_elem_of_app, not_elem_of_cons.
        split; [done|]. split; [apply complete_not_next|].
        split; [done|apply not_elem_of_nil].
    + eexists (_ :: _ ++ _ :: _ :: _), _. split.
      * simpl. rewrite <- app_assoc. simpl. reflexivity.
      * rewrite not_elem_of_cons, not_elem_of_app, !not_elem_of_cons.
        split; [done|]. split; [apply complete_not_next|].
        split; [done|]. split; [done|apply complete_not_next].
  - exists [CallJoinStream threadId runId streamModes], runId.
    split; [done|]. rewrite not_elem_of_cons.
    split; [done|apply not_elem_of_nil].
Qed.

Lemma activeRunActions_shape this client latestState threadId runId n carried :
  ∃ body runId',
    activeRunActions this client latestState threadId runId n carried =
    body ++ [SubscriberNext (RunFinished threadId runId');
             SubscriberComplete] ∧
    SubscriberComplete ∉ body.
Proof.
  unfold activeRunActions.
  assert (Hnow : ∃ body runId',
            [SubscriberNext (RunFinished threadId runId)] ++
            [SubscriberComplete] =
            body ++ [SubscriberNext (RunFinished threadId runId');
                     SubscriberComplete] ∧
            SubscriberComplete ∉ body).
  { exists [], runId. split; [done|apply not_elem_of_nil]. }
  destruct (isThreadBusy latestState); [|done].
  destruct (activeRunIn (runs_list client n threadId)) as [run|].
  - destruct (joinActions_shape this client threadId (run_id run) carried)
      as (body & runId' & -> & Hbody).
    exists (CallRunsList threadId :: body), runId'. split.
    + simpl. by rewrite <- app_assoc.
    + rewrite not_elem_of_cons. by split.
  - exists [CallRunsList threadId], runId. split; [done|].
    rewrite not_elem_of_cons. split; [done|apply not_elem_of_nil].
Qed.

(** *** Run boundaries in a trace *)

Lemma events_quiet (t : list Action) :
  Forall isQuiet t → Forall (λ e, is_run_boundary e = false) (events t).
Proof.
  induction 1 as [|a t Ha _ IH]; [constructor|].
  destruct a; simpl; try done. by constructor.
Qed.

Lemma interruptEvents_quiet state threadId runId :
  Forall isQuiet (SubscriberNext <$> interruptEvents state threadId runId).
Proof.
  unfold interruptEvents.
  destruct (findInterruptedTask state) as [task|]; [|constructor].
  destruct (interrupts task) as [[|i rest]|]; try constructor; [done|].
  constructor.
Qed.

Lemma stateEvents_quiet latestState threadId runId :
  Forall isQuiet (SubscriberNext <$> stateEvents latestState threadId runId).
Proof.
  unfold stateEvents. destruct (values latestState); repeat constructor.
Qed.

Lemma finalInterruptEvents_quiet client threadId runId :
  Forall isQuiet
    (SubscriberNext <$> finalInterruptEvents client threadId runId).
Proof.
  unfold finalInterruptEvents.
  destruct (threads_getState client threadId) as [threadState|e];
    [|constructor].
  destruct (interruptError threadState); [constructor|].
  apply interruptEvents_quiet.
Qed.

(** A join emits, of its own, one [RUN_FINISHED], at the end; whatever
    else opens or closes a run comes from [processStreamChunk]. *)
Lemma joinActions_bracket this client threadId runId carried :
  ∃ before after runId',
    joinActions this client threadId runId carried =
    before ++
    (SubscriberNext <$>
       match runs_joinStream client threadId runId streamModes with
       | Ok stream =>
           streamEvents this threadId (chunks stream)
             (initialJoinState runId carried)
       | Throw _ => []
       end) ++
    after ++ [SubscriberNext (RunFinished threadId runId')] ∧
    Forall isQuiet before ∧ Forall isQuiet after.
Proof.
  unfold joinActions.
  destruct (runs_joinStream client threadId runId streamModes)
    as [stream|e].
  - destruct (failure stream) as [e|].
    + exists [CallJoinStream threadId runId streamModes],
        [StreamEnded (Some e)], runId.
      split; [done|]. by split; repeat constructor.
    + set (st := finalJoinState this threadId (chunks stream)
                   (initialJoinState runId carried)).
      exists [CallJoinStream threadId runId streamModes],
        (StreamEnded None :: CallGetState threadId ::
         (SubscriberNext <$>
            finalInterruptEvents client threadId (currentRunId st))),
        (currentRunId st).
      split; [|split].
      * simpl. by do 2 f_equal.
      * by repeat constructor.
      * constructor; [done|]. constructor; [done|].
        apply finalInterruptEvents_quiet.
  - exists [CallJoinStream threadId runId streamModes], [], runId.
    split; [done|]. by split; repeat constructor.
Qed.

Lemma activeRunActions_bracket this client latestState threadId runId
    carried :
  ∃ before after runId',
    activeRunActions this client latestState threadId runId 1 carried =
    before ++
    (SubscriberNext <$> liveEvents this client latestState threadId carried)
    ++ after ++
    [SubscriberNext (RunFinished threadId runId'); SubscriberComplete] ∧
    Forall isQuiet before ∧ Forall isQuiet after.
Proof.
  unfold activeRunActions, liveEvents.
  destruct (isThreadBusy latestState).
  - destruct (activeRunIn (runs_list client 1 threadId)) as [run|].
    + destruct (joinActions_bracket this client threadId (run_id run)
                  carried)
        as (before & after & runId' & -> & Hbefore & Hafter).
      exists (CallRunsList threadId :: before), after, runId'.
      split; [|split; [by constructor|done]].
      simpl. by rewrite <- !app_assoc.
    + exists [CallRunsList threadId], [], runId.
      split; [done|]. by split; repeat constructor.
  - exists [], [], runId. split; [done|]. by split; constructor.
Qed.
End Runs.

(** Payloads parsed from JSON are serialised without an exception. *)
Lemma interruptError_json `{JSUniverse} (state : ThreadState) :
  @interruptError _ jsonValues state = None.
Proof.
  unfold interruptError.
  destruct (findInterruptedTask state) as [task|]; [|done].
  by destruct (interrupts task) as [[|i rest]|].
Qed.

(** ** Hydration *)

(** In this section the payloads are JSON values, as the SDK client
    delivers them: [JSON.stringify] returns on each ([jsonValues]). What
    [hydrate] does when a payload cannot be serialised is the subject of
    the section that follows. *)
Section Hydration.
Context `{I : Imports} `{!StreamProcessor}.
#[local] Existing Instance jsonValues.

Implicit Types (this : HistoryHydratingAgentRunner)
  (client : HistoryClientInterface)
  (carried : option (gmap string JSValue)).

(** A runner built by the constructor always has a history client, so
    [connect] returns the observable that runs [hydrate]. *)
Lemma connect_constructed (config : HistoryHydratingRunnerConfig) this
    threadId :
  constructor config = Ok this →
  ∃ client, getHistoryClient this = Ok client ∧
            connect this threadId = Ok (hydrate this client threadId).
Proof.
  intros Hnew. unfold connect, getHistoryClient.
  unfold constructor in Hnew.
  destruct (cfg_client config) as [custom|];
    destruct (falsy_string (cfg_deploymentUrl config)); try done;
    destruct (falsy_string (cfg_graphId config)); try done;
    injection Hnew as <-; simpl; by eexists.
Qed.

(** C3. When the history fetch answers nothing or an empty list, the
    subscriber receives [RUN_STARTED], a [MESSAGES_SNAPSHOT] without
    messages and [RUN_FINISHED], all three with one generated run id, then
    the completion, and nothing else; the history fetch is the only call
    made on the client. *)
Theorem C3_empty_history_emits_fallback_bracket
    this client threadId carried :
  threads_getHistory client threadId (fetchLimit this) = Ok None ∨
  threads_getHistory client threadId (fetchLimit this) = Ok (Some []) →
  let fallbackRunId := "hydration_" +:+ Math_random_base36 0 in
  let t := trace (snd (hydrate this client threadId (subscribe carried))) in
  t = [CallGetHistory threadId (fetchLimit this);
       SubscriberNext (RunStarted threadId fallbackRunId);
       SubscriberNext (MessagesSnapshot [] threadId fallbackRunId);
       SubscriberNext (RunFinished threadId fallbackRunId);
       SubscriberComplete] ∧
  notifications t =
    [Some (RunStarted threadId fallbackRunId);
     Some (MessagesSnapshot [] threadId fallbackRunId);
     Some (RunFinished threadId fallbackRunId);
     None].
Proof.
  intros Hempty fallbackRunId t. subst t.
  rewrite hydrate_trace. unfold hydrateActions.
  by destruct Hempty as [-> | ->].
Qed.

(** The events of [hydrate] on a history with latest checkpoint
    [latestState]: the snapshot events, then those of the active-run
    phase. *)
Lemma hydrate_events_nonempty
    this client threadId carried latestState older transformed :
  threads_getHistory client threadId (fetchLimit this) =
    Ok (Some (latestState :: older)) →
  transformMessages (messageLog this (latestState :: older)) (debug this) =
    Ok transformed →
  let runId := hydrationRunId client threadId in
  trace (snd (hydrate this client threadId (subscribe carried))) =
  [CallGetHistory threadId (fetchLimit this); CallRunsList threadId] ++
  (SubscriberNext <$>
     snapshotEvents transformed latestState threadId runId) ++
  activeRunActions this client latestState threadId runId 1 carried.
Proof.
  intros Hhistory Htransform runId.
  rewrite hydrate_trace. unfold hydrateActions.
  by rewrite Hhistory, Htransform, interruptError_json.
Qed.

Lemma hydrate_events_snapshot
    this client threadId carried latestState older transformed :
  threads_getHistory client threadId (fetchLimit this) =
    Ok (Some (latestState :: older)) →
  transformMessages (messageLog this (latestState :: older)) (debug this) =
    Ok transformed →
  let runId := hydrationRunId client threadId in
  events (trace (snd (hydrate this client threadId (subscribe carried)))) =
  [RunStarted threadId runId;
   MessagesSnapshot transformed threadId runId] ++
  match values latestState with
  | Some v => [StateSnapshot v threadId runId]
  | None => []
  end ++
  match findInterrupt latestState with
  | Some i => [interruptEvent i threadId runId]
  | None => []
  end ++
  events (activeRunActions this client latestState threadId runId 1 carried).
Proof.
  intros Hhistory Htransform runId.
  rewrite (hydrate_events_nonempty _ _ _ _ _ _ _ Hhistory Htransform).
  rewrite !events_app, events_next. unfold snapshotEvents.
  rewrite interruptEvents_findInterrupt. unfold stateEvents.
  simpl. by rewrite <- ?app_assoc.
Qed.






(** C2. With a positive limit [k], the log handed on for emission is the
    full deduplicated log without all but its last [k] messages: it has at
    most [k] entries, it is a suffix of the deduplicated log (the limit
    comes after the deduplication), and it holds no id twice. On a history
    that is not empty, the [MESSAGES_SNAPSHOT] event carries the
    transformation of exactly this log. *)
Theorem C2_limit_keeps_last_k_of_deduplicated_log
    this (history : list ThreadState) (k : Z) :
  historyLimit this = k →
  (0 < k)%Z →
  let full := collectMessages (reverse history) in
  let log := messageLog this history in
  length log ≤ Z.to_nat k ∧
  length log = Nat.min (Z.to_nat k) (length full) ∧
  log = drop (length full - Z.to_nat k) full ∧
  log `suffix_of` full ∧
  NoDup (msg_id <$> log) ∧
  (∀ client threadId carried latestState older transformed,
      history = latestState :: older →
      threads_getHistory client threadId (fetchLimit this) =
        Ok (Some history) →
      transformMessages log (debug this) = Ok transformed →
      MessagesSnapshot transformed threadId (hydrationRunId client threadId)
      ∈ events
          (trace (snd (hydrate this client threadId (subscribe carried))))).
Proof.
  intros Hk Hpos full log.
  assert (Hlog : log = drop (length full - Z.to_nat k) full).
  { subst log full. unfold messageLog.
    rewrite limitMessages_positive by lia. by rewrite Hk. }
  split; [rewrite Hlog, length_drop; lia|].
  split; [rewrite Hlog, length_drop; lia|].
  split; [done|]. split; [rewrite Hlog; apply suffix_drop|]. split.
  - rewrite Hlog, fmap_drop. eapply sublist_NoDup; [|apply sublist_drop].
    subst full. rewrite collectMessages_keptFrom. apply keptFrom_NoDup.
  - intros client threadId carried latestState older transformed
      -> Hhistory Htransform.
    rewrite (hydrate_events_snapshot _ _ _ _ _ _ _ Hhistory Htransform).
    apply elem_of_app. left. apply elem_of_cons. right. by left.
Qed.




End Hydration.

(** ** Limits and exceptions, for every serialiser *)

Section Robustness.
Context `{I : Imports} `{S : !Serializer} `{!StreamProcessor}.

Implicit Types (this : HistoryHydratingAgentRunner)
  (client : HistoryClientInterface)
  (carried : option (gmap string JSValue)).

Lemma hydrate_first_call this client threadId carried :
  ∃ rest,
    trace (snd (hydrate this client threadId (subscribe carried))) =
    CallGetHistory threadId (fetchLimit this) :: rest.
Proof. rewrite hydrate_trace. unfold hydrateActions. by eexists. Qed.

(** On a history that is not empty and is transformed without an
    exception, the history fetch, the listing of the runs, [RUN_STARTED]
    and the [MESSAGES_SNAPSHOT] with the transformed log come first. *)
Lemma hydrate_snapshot_first
    this client threadId carried latestState older transformed :
  threads_getHistory client threadId (fetchLimit this) =
    Ok (Some (latestState :: older)) →
  transformMessages (messageLog this (latestState :: older)) (debug this) =
    Ok transformed →
  let runId := hydrationRunId client threadId in
  ∃ rest,
    trace (snd (hydrate this client threadId (subscribe carried))) =
    CallGetHistory threadId (fetchLimit this) ::
    CallRunsList threadId ::
    SubscriberNext (RunStarted threadId runId) ::
    SubscriberNext (MessagesSnapshot transformed threadId runId) :: rest.
Proof.
  intros Hhistory Htransform runId.
  rewrite hydrate_trace. unfold hydrateActions, snapshotEvents.
  rewrite Hhistory, Htransform.
  destruct (interruptError latestState); simpl; by eexists.
Qed.

Lemma constructor_historyLimit (config : HistoryHydratingRunnerConfig) this :
  constructor config = Ok this →
  historyLimit this =
    Z.min (nullish (cfg_historyLimit config) DEFAULT_HISTORY_LIMIT)
          MAX_HISTORY_LIMIT.
Proof.
  intros Hnew. unfold constructor in Hnew.
  destruct (cfg_client config);
    destruct (falsy_string (cfg_deploymentUrl config)); try done;
    destruct (falsy_string (cfg_graphId config)); try done;
    by injection Hnew as <-.
Qed.

(** C10. The constructor stores [min(config.historyLimit ?? 100, 1000)].
    A configured limit [k <= 0] is stored as it is. The history fetch then
    asks for the default of 100 checkpoints, the message log is the whole
    deduplicated log, and that is what is emitted: on a history that is not
    empty, the [MESSAGES_SNAPSHOT] that follows the fetch, the listing of
    the runs and [RUN_STARTED] carries the transformation of the whole
    deduplicated log. A configured limit [k > 0] is stored clamped to 1000;
    the clamped value is what the history fetch asks for, and the
    [MESSAGES_SNAPSHOT] emitted carries the transformation of the last
    [min(k, 1000)] messages of the deduplicated log. *)
Theorem C10_nonpositive_limit_means_no_truncation_and_default_fetch
    (config : HistoryHydratingRunnerConfig) this :
  constructor config = Ok this →
  historyLimit this =
    Z.min (nullish (cfg_historyLimit config) DEFAULT_HISTORY_LIMIT)
          MAX_HISTORY_LIMIT ∧
  (∀ k, cfg_historyLimit config = Some k → (k ≤ 0)%Z →
        historyLimit this = k ∧
        (∀ history : list ThreadState,
            messageLog this history = collectMessages (reverse history)) ∧
        (∀ client threadId carried, ∃ rest,
            trace (snd (hydrate this client threadId (subscribe carried))) =
            CallGetHistory threadId 100 :: rest) ∧
        (∀ client threadId carried latestState older transformed,
            threads_getHistory client threadId 100 =
              Ok (Some (latestState :: older)) →
            transformMessages
              (collectMessages (reverse (latestState :: older)))
              (debug this) = Ok transformed →
            let runId := hydrationRunId client threadId in
            ∃ rest,
              trace (snd (hydrate this client threadId (subscribe carried))) =
              CallGetHistory threadId 100 ::
              CallRunsList threadId ::
              SubscriberNext (RunStarted threadId runId) ::
              SubscriberNext (MessagesSnapshot transformed threadId runId) ::
              rest)) ∧
  (∀ k, cfg_historyLimit config = Some k → (0 < k)%Z →
        historyLimit this = Z.min k 1000 ∧
        (historyLimit this ≤ 1000)%Z ∧
        (∀ client threadId carried, ∃ rest,
            trace (snd (hydrate this client threadId (subscribe carried))) =
            CallGetHistory threadId (Z.min k 1000) :: rest) ∧
        (∀ client threadId carried latestState older transformed,
            threads_getHistory client threadId (Z.min k 1000) =
              Ok (Some (latestState :: older)) →
            let full := collectMessages (reverse (latestState :: older)) in
            transformMessages
              (drop (length full - Z.to_nat (Z.min k 1000)) full)
              (debug this) = Ok transformed →
            let runId := hydrationRunId client threadId in
            ∃ rest,
              trace (snd (hydrate this client threadId (subscribe carried))) =
              CallGetHistory threadId (Z.min k 1000) ::
              CallRunsList threadId ::
              SubscriberNext (RunStarted threadId runId) ::
              SubscriberNext (MessagesSnapshot transformed threadId runId) ::
              rest)).
Proof.
  intros Hnew.
  pose proof (constructor_historyLimit _ _ Hnew) as Hlimit.
  split; [done|]. unfold MAX_HISTORY_LIMIT in Hlimit.
  split; intros k Hcfg Hk; rewrite Hcfg in Hlimit; simpl in Hlimit.
  - assert (Hstored : historyLimit this = k) by lia.
    assert (Hfetch : fetchLimit this = 100%Z).
    { unfold fetchLimit.
      by destruct (Z.ltb_spec 0 (historyLimit this)); [lia|]. }
    assert (Hlog : ∀ history : list ThreadState,
              messageLog this history = collectMessages (reverse history)).
    { intros history. unfold messageLog.
      apply limitMessages_nonpositive. lia. }
    split; [done|]. split; [done|]. split.
    + intros client threadId carried.
      destruct (hydrate_first_call this client threadId carried)
        as [rest Hrest].
      exists rest. by rewrite Hrest, Hfetch.
    + intros client threadId carried latestState older transformed
        Hhistory Htransform runId.
      destruct (hydrate_snapshot_first this client threadId carried
                  latestState older transformed) as [rest Hrest].
      * by rewrite Hfetch.
      * by rewrite Hlog.
      * exists rest. by rewrite Hrest, Hfetch.
  - assert (Hstored : historyLimit this = Z.min k 1000) by done.
    assert (Hfetch : fetchLimit this = Z.min k 1000).
    { unfold fetchLimit.
      by destruct (Z.ltb_spec 0 (historyLimit this)); [|lia]. }
    split; [done|]. split; [lia|]. split.
    + intros client threadId carried.
      destruct (hydrate_first_call this client threadId carried)
        as [rest Hrest].
      exists rest. by rewrite Hrest, Hfetch.
    + intros client threadId carried latestState older transformed
        Hhistory full Htransform runId.
      destruct (hydrate_snapshot_first this client threadId carried
                  latestState older transformed) as [rest Hrest].
      * by rewrite Hfetch.
      * unfold messageLog. rewrite limitMessages_positive by lia.
        by rewrite Hstored.
      * exists rest. by rewrite Hrest, Hfetch.
Qed.
(** *** Exceptions *)

(** When the interrupt payload of the latest checkpoint cannot be
    serialised, the [try] block throws after it has emitted [RUN_STARTED],
    the [MESSAGES_SNAPSHOT] and the [STATE_SNAPSHOT]. *)
Lemma hydrateBody_throws_at_interrupt
    this client threadId carried latestState older transformed typeError :
  threads_getHistory client threadId (fetchLimit this) =
    Ok (Some (latestState :: older)) →
  transformMessages (messageLog this (latestState :: older)) (debug this) =
    Ok transformed →
  interruptError latestState = Some typeError →
  let runId := hydrationRunId client threadId in
  ∃ w, hydrateBody this client threadId (subscribe carried) =
         (Throw typeError, w) ∧
       trace w =
         [CallGetHistory threadId (fetchLimit this); CallRunsList threadId] ++
         (SubscriberNext <$>
            [RunStarted threadId runId;
             MessagesSnapshot transformed threadId runId] ++
            stateEvents latestState threadId runId) ∧
       randoms w = hydrationDraws client threadId.
Proof.
  intros Hhistory Htransform Herror runId. unfold hydrateBody.
  unfold bind at 1. unfold client_getHistory. unfold bind at 1.
  rewrite act_run. unfold lift. rewrite Hhistory.
  fold (messageLog this (latestState :: older)).
  unfold bind at 1. unfold lift. rewrite Htransform.
  unfold bind at 1.
  destruct (latestRunId_run client threadId
              (logged (subscribe carried)
                 [CallGetHistory threadId (fetchLimit this)]))
    as (w1 & -> & Ht1 & Hl1 & Hc1 & Hr1); [done..|].
  rewrite last_reverse_cons.
  unfold bind at 1. unfold subscriber_next at 1. rewrite act_run.
  unfold bind at 1. unfold subscriber_next at 1. rewrite act_run.
  unfold bind at 1. rewrite emitState_run.
  unfold bind at 1. rewrite emitInterrupt_run, Herror.
  eexists. split; [reflexivity|]. simpl. rewrite Ht1. simpl.
  split; [|done]. by rewrite <- ?app_assoc.
Qed.

(** C7. When the payload of the interrupt found in the latest checkpoint
    cannot be serialised, [JSON.stringify] throws inside the [try] block
    after [RUN_STARTED], the [MESSAGES_SNAPSHOT] and the [STATE_SNAPSHOT]
    were emitted. The handler emits its three events after them: the
    subscriber receives a second [RUN_STARTED] while the first run is open,
    and the only [RUN_FINISHED] is that of the fallback run. No exception
    escapes and the completion follows; the events are not a well-formed
    bracket. *)
Theorem C7_exception_after_run_started_leaves_the_first_run_open
    this client threadId carried latestState older transformed i typeError :
  threads_getHistory client threadId (fetchLimit this) =
    Ok (Some (latestState :: older)) →
  transformMessages (messageLog this (latestState :: older)) (debug this) =
    Ok transformed →
  findInterrupt latestState = Some i →
  stringify_error (value i) = Some typeError →
  let result := hydrate this client threadId (subscribe carried) in
  let runId := hydrationRunId client threadId in
  let fallbackRunId :=
    "hydration_error_" +:+
    Math_random_base36 (hydrationDraws client threadId) in
  fst result = Ok tt ∧
  (∃ w, hydrateBody this client threadId (subscribe carried) =
          (Throw typeError, w) ∧
        events (trace w) =
          [RunStarted threadId runId;
           MessagesSnapshot transformed threadId runId] ++
          stateEvents latestState threadId runId) ∧
  notifications (trace (snd result)) =
    (Some <$>
       [RunStarted threadId runId;
        MessagesSnapshot transformed threadId runId] ++
       stateEvents latestState threadId runId ++
       [RunStarted threadId fallbackRunId;
        MessagesSnapshot [] threadId fallbackRunId;
        RunFinished threadId fallbackRunId]) ++ [None] ∧
  ¬ wellBracketed threadId (events (trace (snd result))).
Proof.
  intros Hhistory Htransform Hfound Hthrows result runId fallbackRunId.
  assert (Herror : interruptError latestState = Some typeError)
    by (by rewrite interruptError_findInterrupt, Hfound).
  assert (Htrace :
    trace (snd result) =
    [CallGetHistory threadId (fetchLimit this); CallRunsList threadId] ++
    (SubscriberNext <$>
       [RunStarted threadId runId;
        MessagesSnapshot transformed threadId runId] ++
       stateEvents latestState threadId runId ++
       [RunStarted threadId fallbackRunId;
        MessagesSnapshot [] threadId fallbackRunId;
        RunFinished threadId fallbackRunId]) ++ [SubscriberComplete]).
  { subst result. rewrite hydrate_trace. unfold hydrateActions.
    rewrite Hhistory, Htransform, Herror. unfold fallbackActions.
    simpl. do 4 f_equal. rewrite !fmap_app. simpl.
    by rewrite <- ?app_assoc. }
  split; [|split; [|split]].
  - subst result.
    by destruct (hydrate_run this client threadId carried) as (w' & -> & _).
  - destruct (hydrateBody_throws_at_interrupt this client threadId carried
                latestState older transformed typeError
                Hhistory Htransform Herror) as (w & Hbody & Hw & _).
    exists w. split; [done|]. rewrite Hw, events_app, events_next. done.
  - rewrite Htrace. unfold notifications. simpl. do 2 f_equal.
    rewrite omap_app. simpl. f_equal.
    generalize (stateEvents latestState threadId runId ++
                [RunStarted threadId fallbackRunId;
                 MessagesSnapshot [] threadId fallbackRunId;
                 RunFinished threadId fallbackRunId]).
    intros es. induction es as [|e es IH]; [done|]. simpl. by f_equal.
  - intros (runId0 & inner & runId' & Hevents & Hinner).
    rewrite Htrace, !events_app, events_next in Hevents.
    simpl in Hevents. rewrite app_nil_r in Hevents.
    injection Hevents as _ Hrest.
    change (MessagesSnapshot transformed threadId runId ::
            stateEvents latestState threadId runId ++
            [RunStarted threadId fallbackRunId;
             MessagesSnapshot [] threadId fallbackRunId;
             RunFinished threadId fallbackRunId])
      with ((MessagesSnapshot transformed threadId runId ::
             stateEvents latestState threadId runId) ++
            [RunStarted threadId fallbackRunId;
             MessagesSnapshot [] threadId fallbackRunId] ++
            [RunFinished threadId fallbackRunId]) in Hrest.
    rewrite !app_assoc in Hrest.
    apply app_inj_tail in Hrest as [<- _].
    apply Forall_app in Hinner as [_ Hinner].
    by apply Forall_cons in Hinner as [Hstart _].
Qed.

Lemma hydrateActions_complete this client threadId carried :
  ∃ t, hydrateActions this client threadId carried =
         t ++ [SubscriberComplete] ∧
       SubscriberComplete ∉ t.
Proof.
  unfold hydrateActions.
  assert (Hfallback : ∀ prefix (before : list BaseEvent) n,
            ∃ t, CallGetHistory threadId (fetchLimit this) ::
                 (SubscriberNext <$> before) ++
                 fallbackActions prefix threadId n =
                 t ++ [SubscriberComplete] ∧
                 SubscriberComplete ∉ t).
  { intros prefix before n.
    exists (CallGetHistory threadId (fetchLimit this) ::
            (SubscriberNext <$> before) ++
            (SubscriberNext <$>
               [RunStarted threadId (prefix +:+ Math_random_base36 n);
                MessagesSnapshot [] threadId
                  (prefix +:+ Math_random_base36 n);
                RunFinished threadId (prefix +:+ Math_random_base36 n)])).
    split.
    - unfold fallbackActions. simpl. f_equal. by rewrite <- app_assoc.
    - rewrite not_elem_of_cons, not_elem_of_app.
      split; [done|]. split; apply complete_not_next. }
  destruct (threads_getHistory client threadId (fetchLimit this))
    as [[[|latestState older]|]|e]; try apply (Hfallback _ [] 0).
  destruct (transformMessages (messageLog this (latestState :: older))
              (debug this)) as [transformed|e];
    try apply (Hfallback _ [] 0).
  destruct (interruptError latestState) as [typeError|].
  - destruct (Hfallback "hydration_error_"
                ([RunStarted threadId (hydrationRunId client threadId);
                  MessagesSnapshot transformed threadId
                    (hydrationRunId client threadId)] ++
                 stateEvents latestState threadId
                   (hydrationRunId client threadId))
                (hydrationDraws client threadId))
      as (t & Ht & Hnot).
    exists (CallGetHistory threadId (fetchLimit this) ::
            CallRunsList threadId :: tail t).
    destruct t as [|a t]; [done|]. injection Ht as <- Ht. simpl.
    split; [by rewrite <- Ht|].
    rewrite !not_elem_of_cons. apply not_elem_of_cons in Hnot as [_ Hnot].
    done.
  - destruct (activeRunActions_shape this client latestState threadId
                (hydrationRunId client threadId) 1 carried)
      as (body & runId' & -> & Hbody).
    exists (CallGetHistory threadId (fetchLimit this) ::
            CallRunsList threadId ::
            (SubscriberNext <$>
               snapshotEvents transformed latestState threadId
                 (hydrationRunId client threadId)) ++
            body ++ [SubscriberNext (RunFinished threadId runId')]).
    split.
    + simpl. do 2 f_equal. rewrite <- !app_assoc. done.
    + rewrite !not_elem_of_cons, !not_elem_of_app, not_elem_of_cons.
      split; [done|]. split; [done|]. split; [apply complete_not_next|].
      split; [done|]. split; [done|apply not_elem_of_nil].
Qed.

(** X17. Whatever the backend answers and wherever a call fails,
    [hydrate] lets no exception escape, and the completion is the last
    thing the subscriber receives and reaches it once. The handler emits
    [RUN_STARTED], an empty [MESSAGES_SNAPSHOT] and [RUN_FINISHED] with one
    generated run id and completes, after a [try] block throwing at any
    point. When the history fetch fails or [transformMessages] throws,
    nothing was emitted before, and these are all the subscriber receives.
    When serialising the interrupt payload of the latest checkpoint does
    not throw and [processStreamChunk] pushes no [RUN_STARTED] or
    [RUN_FINISHED], the events form a well-formed bracket. *)
Theorem X17_no_exception_escapes_and_bracket_closed_when_payload_serialises
    this client threadId carried :
  let result := hydrate this client threadId (subscribe carried) in
  let fallbackEvents n :=
    let fallbackRunId := "hydration_error_" +:+ Math_random_base36 n in
    [RunStarted threadId fallbackRunId;
     MessagesSnapshot [] threadId fallbackRunId;
     RunFinished threadId fallbackRunId] in
  fst result = Ok tt ∧
  (∃ t, trace (snd result) = t ++ [SubscriberComplete] ∧
        SubscriberComplete ∉ t) ∧
  (∀ (body : M unit) w0 e w,
      body w0 = (Throw e, w) →
      let handled :=
        try_catch body (λ _, fallback "hydration_error_" threadId) w0 in
      fst handled = Ok tt ∧
      trace (snd handled) =
      trace w ++ (SubscriberNext <$> fallbackEvents (randoms w)) ++
      [SubscriberComplete]) ∧
  (∀ e, threads_getHistory client threadId (fetchLimit this) = Throw e →
        trace (snd result) =
        CallGetHistory threadId (fetchLimit this) ::
        (SubscriberNext <$> fallbackEvents 0) ++ [SubscriberComplete]) ∧
  (∀ latestState older e,
      threads_getHistory client threadId (fetchLimit this) =
        Ok (Some (latestState :: older)) →
      transformMessages (messageLog this (latestState :: older))
        (debug this) = Throw e →
      trace (snd result) =
      CallGetHistory threadId (fetchLimit this) ::
      (SubscriberNext <$> fallbackEvents 0) ++ [SubscriberComplete]) ∧
  ((∀ latestState older i,
       threads_getHistory client threadId (fetchLimit this) =
         Ok (Some (latestState :: older)) →
       findInterrupt latestState = Some i →
       stringify_error (value i) = None) →
   (∀ latestState older,
       threads_getHistory client threadId (fetchLimit this) =
         Ok (Some (latestState :: older)) →
       Forall (λ e, is_run_boundary e = false)
         (liveEvents this client latestState threadId carried)) →
   wellBracketed threadId (events (trace (snd result)))).
Proof.
  intros result fallbackEvents. subst result.
  split; [|split; [|split; [|split; [|split]]]].
  - by destruct (hydrate_run this client threadId carried) as (w' & -> & _).
  - rewrite hydrate_trace. apply hydrateActions_complete.
  - intros body w0 e w Hbody handled. subst handled.
    unfold try_catch. rewrite Hbody.
    destruct (fallback_run "hydration_error_" threadId w) as [Hok Ht].
    split; [done|]. by rewrite Ht.
  - intros e He. rewrite hydrate_trace. unfold hydrateActions.
    by rewrite He.
  - intros latestState older e Hhistory Htransform.
    rewrite hydrate_trace. unfold hydrateActions.
    by rewrite Hhistory, Htransform.
  - intros Hserialises Hlive. rewrite hydrate_trace. unfold hydrateActions.
    assert (Hfallback : ∀ prefix,
              wellBracketed threadId
                (events (CallGetHistory threadId (fetchLimit this) ::
                         fallbackActions prefix threadId 0))).
    { intros prefix. eexists _, [_], _. split; [done|].
      by repeat constructor. }
    destruct (threads_getHistory client threadId (fetchLimit this))
      as [[[|latestState older]|]|e] eqn:Hhistory; try apply Hfallback.
    destruct (transformMessages (messageLog this (latestState :: older))
                (debug this)) as [transformed|e]; try apply Hfallback.
    assert (Herror : interruptError latestState = None).
    { rewrite interruptError_findInterrupt.
      destruct (findInterrupt latestState) as [i|] eqn:Hfound; [|done].
      by apply (Hserialises latestState older). }
    rewrite Herror.
    destruct (activeRunActions_bracket this client latestState threadId
                (hydrationRunId client threadId) carried)
      as (before & after & runId' & -> & Hbefore & Hafter).
    specialize (Hlive latestState older eq_refl).
    set (runId := hydrationRunId client threadId).
    exists runId,
      (MessagesSnapshot transformed threadId runId ::
       stateEvents latestState threadId runId ++
       interruptEvents latestState threadId runId ++
       events before ++
       liveEvents this client latestState threadId carried ++
       events after),
      runId'.
    split.
    + unfold snapshotEvents. simpl.
      rewrite !events_app, !events_next. simpl.
      rewrite <- !app_assoc. done.
    + constructor; [done|]. rewrite !Forall_app.
      split; [|split; [|split; [|split]]].
      * rewrite <- (events_next (stateEvents latestState threadId runId)).
        apply events_quiet, stateEvents_quiet.
      * rewrite <- (events_next
                      (interruptEvents latestState threadId runId)).
        apply events_quiet, interruptEvents_quiet.
      * by apply events_quiet.
      * done.
      * by apply events_quiet.
Qed.
End Robustness.

(** ** The stream translator under the runner's loop *)

Section Translator.
Context `{I : Imports} `{S : !Serializer} `{R : !ChunkReader}.
#[local] Existing Instance specProcessor.

Implicit Types (this : HistoryHydratingAgentRunner)
  (client : HistoryClientInterface) (st : JoinState)
  (chunk : HistoryStreamChunk) (cs : list HistoryStreamChunk).

Ltac translate chunk :=
  unfold nextJoinState, chunkOutcome; simpl; unfold translateChunk;
  destruct (chunkShape chunk) as [phase m delta|phase t name delta|payload|];
  simpl; try case_decide; simpl.

Lemma startedMessages_grow this threadId st chunk :
  startedMessages st ⊆ startedMessages (nextJoinState this threadId st chunk).
Proof. translate chunk; set_solver. Qed.

Lemma startedToolCalls_grow this threadId st chunk :
  startedToolCalls st ⊆ startedToolCalls (nextJoinState this threadId st chunk).
Proof. translate chunk; set_solver. Qed.

Lemma chunk_messageStarts this threadId st chunk id :
  let n := length (List.filter (isMessageStart id)
                     (out_events (chunkOutcome this threadId st chunk))) in
  n ≤ 1 ∧
  (id ∈ startedMessages st → n = 0) ∧
  (0 < n → id ∈ startedMessages (nextJoinState this threadId st chunk)).
Proof.
  translate chunk; unfold startIfNew; repeat case_decide; simpl;
    repeat case_bool_decide;
    try match goal with ph : ChunkPhase |- _ => destruct ph end; simpl;
    repeat split; intros; try lia; set_solver.
Qed.

Lemma chunk_toolCallStarts this threadId st chunk id :
  let n := length (List.filter (isToolCallStart id)
                     (out_events (chunkOutcome this threadId st chunk))) in
  n ≤ 1 ∧
  (id ∈ startedToolCalls st → n = 0) ∧
  (0 < n → id ∈ startedToolCalls (nextJoinState this threadId st chunk)).
Proof.
  translate chunk; unfold startIfNew; repeat case_decide; simpl;
    repeat case_bool_decide;
    try match goal with ph : ChunkPhase |- _ => destruct ph end; simpl;
    repeat split; intros; try lia; set_solver.
Qed.

Lemma stream_messageStarts this threadId cs st id :
  let n := length (List.filter (isMessageStart id)
                     (streamEvents this threadId cs st)) in
  n ≤ 1 ∧ (id ∈ startedMessages st → n = 0).
Proof.
  revert st. induction cs as [|chunk cs IH]; intros st; cbn [streamEvents].
  - split; [simpl; lia|done].
  - rewrite List.filter_app, length_app.
    destruct (chunk_messageStarts this threadId st chunk id)
      as (Hle & Hin & Hnew).
    destruct (IH (nextJoinState this threadId st chunk)) as [Hle' Hin'].
    pose proof (startedMessages_grow this threadId st chunk) as Hgrow.
    cbv zeta in *.
    set (n1 := length (List.filter _ (out_events _))) in *.
    set (n2 := length (List.filter _ (streamEvents _ _ _ _))) in *.
    split.
    + destruct (decide (0 < n1)) as [Hpos|Hzero];
        [specialize (Hin' (Hnew Hpos))|]; lia.
    + intros Hid. specialize (Hin Hid).
      specialize (Hin' (Hgrow _ Hid)). lia.
Qed.

Lemma stream_toolCallStarts this threadId cs st id :
  let n := length (List.filter (isToolCallStart id)
                     (streamEvents this threadId cs st)) in
  n ≤ 1 ∧ (id ∈ startedToolCalls st → n = 0).
Proof.
  revert st. induction cs as [|chunk cs IH]; intros st; cbn [streamEvents].
  - split; [simpl; lia|done].
  - rewrite List.filter_app, length_app.
    destruct (chunk_toolCallStarts this threadId st chunk id)
      as (Hle & Hin & Hnew).
    destruct (IH (nextJoinState this threadId st chunk)) as [Hle' Hin'].
    pose proof (startedToolCalls_grow this threadId st chunk) as Hgrow.
    cbv zeta in *.
    set (n1 := length (List.filter _ (out_events _))) in *.
    set (n2 := length (List.filter _ (streamEvents _ _ _ _))) in *.
    split.
    + destruct (decide (0 < n1)) as [Hpos|Hzero];
        [specialize (Hin' (Hnew Hpos))|]; lia.
    + intros Hid. specialize (Hin Hid).
      specialize (Hin' (Hgrow _ Hid)). lia.
Qed.

Lemma join_live_events this client threadId runId w stream :
  runs_joinStream client threadId runId streamModes = Ok stream →
  ∃ after,
    trace (snd (joinAndProcessStream this client threadId runId w)) =
    trace w ++ [CallJoinStream threadId runId streamModes] ++
    (SubscriberNext <$>
       streamEvents this threadId (chunks stream)
         (initialJoinState runId (activeRun_manuallyEmittedState w))) ++
    after.
Proof.
  intros Hopen. rewrite join_trace. unfold joinActions. rewrite Hopen.
  by eexists.
Qed.

(** C8. In a join, whose translator starts without any started message
    or tool call, a first chunk for message [M] makes the translator emit
    the start event of [M] and then the content (or end) event of the
    chunk, and leaves [M] in the started set; likewise, keyed on the tool
    call id, for a first chunk of a tool call. Over the whole stream, the
    start event of any one message id, and of any one tool call id, is
    emitted at most once. *)
Theorem C8_missing_start_is_synthesized_once
    this client threadId runId w stream chunk rest :
  runs_joinStream client threadId runId streamModes = Ok stream →
  chunks stream = chunk :: rest →
  let st0 := initialJoinState runId (activeRun_manuallyEmittedState w) in
  let live := streamEvents this threadId (chunks stream) st0 in
  let r := nullish (chunkRunId chunk) runId in
  (∃ after,
      trace (snd (joinAndProcessStream this client threadId runId w)) =
      trace w ++ [CallJoinStream threadId runId streamModes] ++
      (SubscriberNext <$> live) ++ after) ∧
  (∀ phase messageId delta,
      chunkShape chunk = MessageChunk phase messageId delta →
      (∃ later,
          live =
          TextMessageStart messageId threadId r ::
          match phase with
          | ChunkEnd => TextMessageEnd messageId threadId r
          | _ => TextMessageContent messageId delta threadId r
          end :: later) ∧
      messageId ∈ startedMessages (nextJoinState this threadId st0 chunk)) ∧
  (∀ phase toolCallId toolCallName delta,
      chunkShape chunk = ToolCallChunk phase toolCallId toolCallName delta →
      (∃ later,
          live =
          ToolCallStart toolCallId toolCallName threadId r ::
          match phase with
          | ChunkEnd => ToolCallEnd toolCallId threadId r
          | _ => ToolCallArgs toolCallId delta threadId r
          end :: later) ∧
      toolCallId ∈ startedToolCalls (nextJoinState this threadId st0 chunk)) ∧
  (∀ id, length (List.filter (isMessageStart id) live) ≤ 1) ∧
  (∀ id, length (List.filter (isToolCallStart id) live) ≤ 1).
Proof.
  intros Hopen Hchunks st0 live r.
  split; [by apply join_live_events|].
  split; [|split; [|split]].
  - intros phase messageId delta Hshape. subst live. rewrite Hchunks.
    cbn [streamEvents].
    unfold nextJoinState, chunkOutcome. simpl. unfold translateChunk.
    rewrite Hshape. simpl. unfold startIfNew.
    destruct (decide (messageId ∈ ∅)) as [Hin|_]; [set_solver|].
    split; [by eexists|set_solver].
  - intros phase toolCallId toolCallName delta Hshape. subst live.
    rewrite Hchunks. cbn [streamEvents].
    unfold nextJoinState, chunkOutcome. simpl. unfold translateChunk.
    rewrite Hshape. simpl. unfold startIfNew.
    destruct (decide (toolCallId ∈ ∅)) as [Hin|_]; [set_solver|].
    split; [by eexists|set_solver].
  - intros id. apply stream_messageStarts.
  - intros id. apply stream_toolCallStarts.
Qed.

End Translator.

(** ** Examples on a concrete backend *)

Section Examples.
Import Fixture.
#[local] Existing Instances universe imports reader processor.
#[local] Existing Instance jsonValues.

(** The scenario of the specification: the newest checkpoint holds [a]
    and [b], the older one [a]; the log is [a; b], one copy each. *)
Example scenario_two_checkpoints :
  msg_id <$> messageLog (runner 100) history = ["a"; "b"].
Proof. vm_compute. reflexivity. Qed.

Example scenario_idle_thread :
  notifications
    (trace (snd (hydrate (runner 100) idleClient "thread-1" (subscribe None))))
  = [Some (RunStarted "thread-1" "run-7");
     Some (MessagesSnapshot ["a"; "b"] "thread-1" "run-7");
     Some (StateSnapshot
             {| messages := Some [message "a"; message "b"];
                other_values := ∅ |} "thread-1" "run-7");
     Some (RunFinished "thread-1" "run-7");
     None].
Proof. vm_compute. reflexivity. Qed.

Lemma C1_witness :
  NoDup (msg_id <$> collectMessages (reverse history)).
Proof.
  exact (proj1
           (C1_message_log_is_deduplicated_in_first_occurrence_order history)).
Defined.

Lemma C2_witness :
  historyLimit (runner 1) = 1%Z ∧ (0 < 1)%Z ∧
  messageLog (runner 1) history = [message "b"].
Proof.
  split; [reflexivity|]. split; [reflexivity|].
  destruct (C2_limit_keeps_last_k_of_deduplicated_log
              (runner 1) history 1 eq_refl eq_refl)
    as (_ & _ & Hlog & _).
  rewrite Hlog. vm_compute. reflexivity.
Defined.

Lemma C3_witness :
  threads_getHistory emptyClient "thread-1" (fetchLimit (runner 100)) =
    Ok (Some []) ∧
  notifications
    (trace (snd (hydrate (runner 100) emptyClient "thread-1" (subscribe None))))
  = [Some (RunStarted "thread-1" "hydration_k3j9x");
     Some (MessagesSnapshot [] "thread-1" "hydration_k3j9x");
     Some (RunFinished "thread-1" "hydration_k3j9x");
     None].
Proof.
  split; [reflexivity|].
  exact (proj2
           (C3_empty_history_emits_fallback_bracket
              (runner 100) emptyClient "thread-1" None
              (or_intror eq_refl))).
Defined.

Lemma history_transformed :
  transformMessages (messageLog (runner 100) history) (debug (runner 100)) =
  Ok ["a"; "b"].
Proof. vm_compute. reflexivity. Defined.






Lemma bigint_transformed :
  transformMessages
    (messageLog (runner 100) [checkpoint ["a"] [] bigintTasks])
    (debug (runner 100)) = Ok ["a"].
Proof. vm_compute. reflexivity. Defined.

Lemma bigint_refused :
  @stringify_error universe bigintSerializer (value (interrupt "10n")) =
  Some "TypeError: Do not know how to serialize a BigInt".
Proof. vm_compute. reflexivity. Defined.

Lemma C7_witness :
  threads_getHistory bigintClient "thread-1" (fetchLimit (runner 100)) =
    Ok (Some [checkpoint ["a"] [] bigintTasks]) ∧
  findInterrupt (checkpoint ["a"] [] bigintTasks) = Some (interrupt "10n") ∧
  let result :=
    @hydrate universe imports bigintSerializer processor
      (runner 100) bigintClient "thread-1" (subscribe None) in
  fst result = Ok tt ∧
  notifications (trace (snd result)) =
    [Some (RunStarted "thread-1" "run-7");
     Some (MessagesSnapshot ["a"] "thread-1" "run-7");
     Some (StateSnapshot
             {| messages := Some [message "a"]; other_values := ∅ |}
             "thread-1" "run-7");
     Some (RunStarted "thread-1" "hydration_error_k3j9x");
     Some (MessagesSnapshot [] "thread-1" "hydration_error_k3j9x");
     Some (RunFinished "thread-1" "hydration_error_k3j9x");
     None] ∧
  ¬ wellBracketed "thread-1" (events (trace (snd result))).
Proof.
  split; [reflexivity|]. split; [reflexivity|].
  destruct (@C7_exception_after_run_started_leaves_the_first_run_open
              universe imports bigintSerializer processor
              (runner 100) bigintClient "thread-1" None
              (checkpoint ["a"] [] bigintTasks) [] ["a"]
              (interrupt "10n")
              "TypeError: Do not know how to serialize a BigInt"
              eq_refl bigint_transformed eq_refl bigint_refused)
    as (Hok & _ & Hnotifications & Hopen).
  split; [exact Hok|]. split; [|exact Hopen].
  rewrite Hnotifications. vm_compute. reflexivity.
Defined.

Lemma C8_witness :
  runs_joinStream busyClient "thread-1" "run-9" streamModes = Ok liveStream ∧
  ∃ later,
    streamEvents (runner 100) "thread-1" (chunks liveStream)
      (initialJoinState "run-9" None)
    = TextMessageStart "m1" "thread-1" "run-9" ::
      TextMessageContent "m1" "Hel" "thread-1" "run-9" :: later.
Proof.
  split; [reflexivity|].
  destruct (C8_missing_start_is_synthesized_once
              (runner 100) busyClient "thread-1" "run-9" (subscribe None)
              liveStream (chunk "message/content" "m1")
              [chunk "state" "half"; chunk "message/end" "m1"]
              eq_refl eq_refl)
    as (_ & Hmessage & _).
  destruct (Hmessage ChunkContent "m1" "Hel" eq_refl) as [Hlive _].
  exact Hlive.
Defined.





Lemma whole_log_transformed :
  transformMessages (collectMessages (reverse history)) false =
  Ok ["a"; "b"].
Proof. vm_compute. reflexivity. Defined.

Lemma C10_witness :
  constructor (config (Some 0%Z)) =
    Ok {| historyLimit := 0;
          debug := false;
          customClient := None;
          frozenConfig :=
            Some {| deploymentUrl := "https://langgraph.example";
                    graphId := "my-agent";
                    langsmithApiKey := None;
                    clientTimeoutMs := 1800000 |} |} ∧
  ∃ this,
    constructor (config (Some 0%Z)) = Ok this ∧
    messageLog this history = collectMessages (reverse history) ∧
    ∃ rest,
      trace (snd (hydrate this idleClient "thread-1" (subscribe None))) =
      CallGetHistory "thread-1" 100 ::
      CallRunsList "thread-1" ::
      SubscriberNext (RunStarted "thread-1" "run-7") ::
      SubscriberNext (MessagesSnapshot ["a"; "b"] "thread-1" "run-7") ::
      rest.
Proof.
  split; [reflexivity|]. eexists. split; [reflexivity|].
  destruct (C10_nonpositive_limit_means_no_truncation_and_default_fetch
              (config (Some 0%Z)) _ eq_refl) as (_ & Hzero & _).
  destruct (Hzero 0%Z eq_refl ltac:(lia)) as (_ & Hlog & _ & Hemitted).
  split; [apply Hlog|].
  exact (Hemitted idleClient "thread-1" None
           (checkpoint ["a"; "b"] [] []) [checkpoint ["a"] [] []]
           ["a"; "b"] eq_refl whole_log_transformed).
Defined.
End Examples.

(** * Further properties *)

(** ** The message log, continued *)

Section MessageLogMore.
Context `{U : JSUniverse}.

Implicit Types (l : list LangGraphMessage) (seen : gset string)
  (history : list ThreadState).

Lemma keptFrom_none seen l :
  (∀ m, m ∈ l → msg_id m ∈ seen) → keptFrom seen l = [].
Proof.
  induction l as [|m l IH]; intros Hall; simpl; [done|].
  rewrite decide_True by (apply Hall; by left).
  apply IH. intros m' Hm'. apply Hall. by right.
Qed.

Lemma keptFrom_all seen l :
  NoDup (ids l) → (∀ m, m ∈ l → msg_id m ∉ seen) → keptFrom seen l = l.
Proof.
  revert seen. induction l as [|m l IH]; intros seen Hnd Hfresh; simpl;
    [done|].
  unfold ids in Hnd. rewrite fmap_cons in Hnd.
  apply NoDup_cons in Hnd as [Hm Hnd].
  rewrite decide_False by (apply Hfresh; by left).
  f_equal. apply IH; [done|].
  intros m' Hm' [Heq%elem_of_singleton|Hin]%elem_of_union.
  - apply Hm. apply list_elem_of_fmap. by exists m'.
  - by apply (Hfresh m'); [right|].
Qed.

Lemma keptFrom_elem seen l m : m ∈ keptFrom seen l → m ∈ l.
Proof.
  intros (i & Hi)%list_elem_of_lookup.
  destruct (keptFrom_lookup _ _ _ _ Hi) as (_ & j & Hj & _).
  apply list_elem_of_lookup. by exists j.
Qed.

Lemma keptFrom_ids seen l :
  list_to_set (ids (keptFrom seen l)) ∪ seen =
  (list_to_set (ids l) ∪ seen : gset string).
Proof.
  apply set_eq. intros x. rewrite !elem_of_union, !elem_of_list_to_set.
  unfold ids. rewrite !list_elem_of_fmap. split.
  - intros [(m & -> & Hm)|Hs]; [|by right].
    left. exists m. split; [done|]. by eapply keptFrom_elem.
  - intros [(m & -> & Hm)|Hs]; [|by right].
    destruct (keptFrom_complete seen l m Hm) as [Hs|Hk]; [by right|].
    left. by apply list_elem_of_fmap in Hk.
Qed.

(** The log of the checkpoints [older ++ [state] ++ newer] (in
    chronological order) when every id of [state] occurs in [older]. *)
Lemma keptFrom_redundant (older redundant newer : list LangGraphMessage) :
  (∀ m, m ∈ redundant → msg_id m ∈ ids older) →
  keptFrom ∅ (older ++ redundant ++ newer) = keptFrom ∅ (older ++ newer).
Proof.
  intros Hseen. rewrite !keptFrom_app.
  rewrite (keptFrom_none _ redundant).
  - simpl. do 2 f_equal. unfold ids. set_solver.
  - intros m Hm. rewrite keptFrom_ids.
    apply elem_of_union. left. apply elem_of_list_to_set. by apply Hseen.
Qed.

Lemma chronological_app (newer older : list ThreadState) :
  chronological (newer ++ older) = chronological older ++ chronological newer.
Proof.
  unfold chronological. by rewrite reverse_app, fmap_app, concat_app.
Qed.

Lemma chronological_cons state (older : list ThreadState) :
  chronological (state :: older) =
  chronological older ++ checkpointMessages state.
Proof.
  unfold chronological. rewrite reverse_cons, fmap_app, concat_app.
  simpl. by rewrite app_nil_r.
Qed.

Lemma collectMessages_chronological history :
  collectMessages (reverse history) = keptFrom ∅ (chronological history).
Proof. apply collectMessages_keptFrom. Qed.

(** X1. A checkpoint that brings no new message id, because it has no
    [values], no [messages], an empty list, or only messages whose ids
    occur in older checkpoints (a checkpoint delivered twice, for one),
    leaves the message log as it is without that checkpoint, whatever the
    limit. *)
Theorem X1_checkpoint_without_new_ids_changes_nothing
    this (newer older : list ThreadState) (state : ThreadState) :
  (∀ m, m ∈ checkpointMessages state →
        msg_id m ∈ msg_id <$> chronological older) →
  messageLog this (newer ++ state :: older) = messageLog this (newer ++ older).
Proof.
  intros Hseen. unfold messageLog.
  rewrite !collectMessages_chronological, !chronological_app.
  rewrite chronological_cons, <- app_assoc.
  by rewrite (keptFrom_redundant _ _ _ Hseen).
Qed.

Lemma keptFrom_sublist seen l : keptFrom seen l `sublist_of` l.
Proof.
  revert seen. induction l as [|m l IH]; intros seen; simpl; [done|].
  destruct (decide (msg_id m ∈ seen)).
  - by apply sublist_cons.
  - by apply sublist_skip.
Qed.

Lemma elem_of_concat {A} (x : A) (xss : list (list A)) :
  x ∈ concat xss → ∃ xs, xs ∈ xss ∧ x ∈ xs.
Proof.
  induction xss as [|xs xss IH]; simpl; [by intros ?%elem_of_nil|].
  intros [Hl|Hls]%elem_of_app.
  - exists xs. split; [by left|done].
  - destruct (IH Hls) as (xs' & Hl' & Hx). exists xs'.
    split; [by right|done].
Qed.

(** The messages kept out of snapshots that extend one another, after a
    first snapshot [a] whose ids are all taken: what the last snapshot
    adds to [a]. *)
Lemma keptFrom_cumulative (snapshots : list (list LangGraphMessage)) a x :
  cumulative (a :: snapshots) →
  last (a :: snapshots) = Some x →
  NoDup (ids x) →
  x = a ++ keptFrom (list_to_set (ids a)) (concat snapshots).
Proof.
  revert a. induction snapshots as [|b rest IH]; intros a Hchain Hlast Hnd.
  - simpl in *. injection Hlast as <-. by rewrite app_nil_r.
  - destruct Hchain as [[d ->] Hchain].
    assert (Hlast' : last ((a ++ d) :: rest) = Some x) by done.
    specialize (IH _ Hchain Hlast' Hnd).
    assert (Hb : NoDup (ids (a ++ d))).
    { rewrite IH in Hnd. unfold ids in *. rewrite fmap_app in Hnd.
      by apply NoDup_app in Hnd as [? _]. }
    cbn [concat]. rewrite keptFrom_app, keptFrom_app.
    rewrite (keptFrom_none _ a)
      by (intros m Hm; apply elem_of_list_to_set, list_elem_of_fmap;
          by exists m).
    unfold ids in Hb. rewrite fmap_app in Hb.
    apply NoDup_app in Hb as (_ & Hdisjoint & Hd).
    rewrite (keptFrom_all _ d); [|done|].
    + rewrite IH at 1. simpl. rewrite <- app_assoc. do 3 f_equal.
      unfold ids. rewrite fmap_app, list_to_set_app_L. set_solver.
    + intros m Hm Hin. simpl in Hin.
      apply elem_of_union in Hin as [[]%elem_of_empty|Hin].
      apply elem_of_list_to_set in Hin.
      apply (Hdisjoint _ Hin). apply list_elem_of_fmap. by exists m.
Qed.

(** X2. When the checkpoints are cumulative snapshots, each holding the
    messages of the one before it followed by new ones, and the newest
    checkpoint holds no id twice, the deduplicated log is exactly the
    message list of the newest checkpoint. *)
Theorem X2_cumulative_checkpoints_give_newest_messages
    (latestState : ThreadState) (older : list ThreadState) :
  cumulative (checkpointMessages <$> reverse (latestState :: older)) →
  NoDup (msg_id <$> checkpointMessages latestState) →
  collectMessages (reverse (latestState :: older)) =
  checkpointMessages latestState.
Proof.
  intros Hchain Hnd. rewrite collectMessages_keptFrom.
  set (snapshots := checkpointMessages <$> reverse (latestState :: older))
    in *.
  assert (Hlast : last ([] :: snapshots) = Some (checkpointMessages latestState)).
  { subst snapshots. rewrite reverse_cons, fmap_app. simpl.
    by rewrite app_comm_cons, last_snoc. }
  assert (Hchain' : cumulative ([] :: snapshots)).
  { simpl. destruct snapshots; [done|]. split; [apply prefix_nil|done]. }
  symmetry. exact (keptFrom_cumulative snapshots [] _ Hchain' Hlast Hnd).
Qed.

(** X3. The deduplicated log has as many entries as the history has
    distinct message ids, never more entries than the history has
    messages, and every entry is a message of some checkpoint of the
    history, as that checkpoint holds it. *)
Theorem X3_log_counts_distinct_ids_and_holds_only_history_messages
    history :
  let log := collectMessages (reverse history) in
  length log =
    size (list_to_set (msg_id <$> chronological history) : gset string) ∧
  length log ≤ length (chronological history) ∧
  (∀ m, m ∈ log → ∃ state, state ∈ history ∧ m ∈ checkpointMessages state).
Proof.
  intros log. subst log. rewrite collectMessages_chronological.
  split; [|split].
  - pose proof (keptFrom_ids ∅ (chronological history)) as Hids.
    rewrite !(right_id_L ∅ (∪)) in Hids. unfold ids in Hids.
    rewrite <- Hids, size_list_to_set by apply keptFrom_NoDup.
    by rewrite length_fmap.
  - apply sublist_length, keptFrom_sublist.
  - intros m Hm%keptFrom_elem. unfold chronological in Hm.
    apply elem_of_concat in Hm as (xs & Hl & Hm).
    apply list_elem_of_fmap in Hl as (state & -> & Hstate).
    exists state. split; [|done]. by apply elem_of_reverse.
Qed.

(** X4. The limit only ever drops the oldest entries of the deduplicated
    log: for every limit the message log is a suffix of it; it is the whole
    of it when the limit is not positive or is at least the number of
    unique messages; otherwise it has exactly [historyLimit] entries. *)
Theorem X4_limit_drops_only_oldest_messages this history :
  let full := collectMessages (reverse history) in
  let log := messageLog this history in
  log `suffix_of` full ∧
  ((historyLimit this ≤ 0 ∨ Z.of_nat (length full) ≤ historyLimit this)%Z →
   log = full) ∧
  ((0 < historyLimit this < Z.of_nat (length full))%Z →
   length log = Z.to_nat (historyLimit this) ∧
   ∃ oldest, full = oldest ++ log ∧
             length oldest = length full - Z.to_nat (historyLimit this)).
Proof.
  intros full log. subst log. unfold messageLog. fold full.
  destruct (Z.le_gt_cases (historyLimit this) 0) as [Hnon|Hpos].
  - rewrite limitMessages_nonpositive by done.
    split; [done|]. split; [done|]. lia.
  - rewrite limitMessages_positive by lia.
    split; [apply suffix_drop|]. split.
    + intros [?|Hlarge]; [lia|].
      replace (length full - Z.to_nat (historyLimit this)) with 0 by lia.
      done.
    + intros Hsmall. split; [rewrite length_drop; lia|].
      exists (take (length full - Z.to_nat (historyLimit this)) full).
      split; [by rewrite take_drop|]. rewrite length_take. lia.
Qed.
End MessageLogMore.

(** ** Construction and the choice of the history client *)

Section Construction.
Context `{I : Imports} `{!StreamProcessor}.
#[local] Existing Instance jsonValues.

Implicit Types (config : HistoryHydratingRunnerConfig)
  (this : HistoryHydratingAgentRunner).

Lemma falsy_string_true s :
  falsy_string s = true ↔ s = None ∨ s = Some EmptyString.
Proof.
  unfold falsy_string. destruct s as [s|]; [|naive_solver].
  rewrite bool_decide_eq_true. naive_solver.
Qed.

Lemma falsy_string_false s :
  falsy_string s = false ↔ ∃ t, s = Some t ∧ t ≠ EmptyString.
Proof.
  unfold falsy_string. destruct s as [s|]; [|naive_solver].
  rewrite bool_decide_eq_false. naive_solver.
Qed.

(** What the constructor builds when it does not throw. *)
Lemma constructor_ok config this :
  constructor config = Ok this →
  ∃ url graph,
    cfg_deploymentUrl config = Some url ∧ url ≠ EmptyString ∧
    cfg_graphId config = Some graph ∧ graph ≠ EmptyString ∧
    this =
    {| historyLimit :=
         Z.min (nullish (cfg_historyLimit config) DEFAULT_HISTORY_LIMIT)
               MAX_HISTORY_LIMIT;
       debug := nullish (cfg_debug config) false;
       customClient := cfg_client config;
       frozenConfig :=
         Some {| deploymentUrl := url;
                 graphId := graph;
                 langsmithApiKey := cfg_langsmithApiKey config;
                 clientTimeoutMs :=
                   nullish (cfg_clientTimeoutMs config) DEFAULT_TIMEOUT |} |}.
Proof.
  unfold constructor. intros Hnew.
  destruct (falsy_string (cfg_deploymentUrl config)) eqn:Hurl;
    [by destruct (cfg_client config)|].
  destruct (falsy_string (cfg_graphId config)) eqn:Hgraph;
    [by destruct (cfg_client config)|].
  apply falsy_string_false in Hurl as (url & Hurl & ?).
  apply falsy_string_false in Hgraph as (graph & Hgraph & ?).
  exists url, graph. rewrite Hurl, Hgraph in *. simpl in Hnew.
  repeat split; try done.
  by destruct (cfg_client config); injection Hnew as <-.
Qed.

(** X5. The constructor throws exactly when [deploymentUrl] or [graphId]
    is absent or empty, with or without a custom client, and it reports a
    missing [deploymentUrl] before a missing [graphId]. Otherwise the
    runner it builds holds the two identifiers, the API key and the
    timeout (30 minutes by default) in its frozen configuration, and the
    custom client as configured. *)
Theorem X5_constructor_requires_deployment_url_and_graph_id config :
  ((∃ e, constructor config = Throw e) ↔
   cfg_deploymentUrl config = None ∨
   cfg_deploymentUrl config = Some EmptyString ∨
   cfg_graphId config = None ∨
   cfg_graphId config = Some EmptyString) ∧
  (cfg_deploymentUrl config = None ∨
   cfg_deploymentUrl config = Some EmptyString →
   constructor config =
   Throw ("HistoryHydratingAgentRunner: deploymentUrl is required " +:+
          match cfg_client config with
          | Some _ => "(even when using a custom client, for agent creation)"
          | None => "when not using a custom client"
          end)) ∧
  (∀ this, constructor config = Ok this →
     ∃ url graph,
       cfg_deploymentUrl config = Some url ∧
       cfg_graphId config = Some graph ∧
       customClient this = cfg_client config ∧
       frozenConfig this =
       Some {| deploymentUrl := url;
               graphId := graph;
               langsmithApiKey := cfg_langsmithApiKey config;
               clientTimeoutMs :=
                 nullish (cfg_clientTimeoutMs config) 1800000%Z |}).
Proof.
  split; [|split].
  - split.
    + intros [e He]. unfold constructor in He.
      destruct (falsy_string (cfg_deploymentUrl config)) eqn:Hurl.
      { apply falsy_string_true in Hurl. naive_solver. }
      destruct (falsy_string (cfg_graphId config)) eqn:Hgraph.
      { apply falsy_string_true in Hgraph. naive_solver. }
      by destruct (cfg_client config).
    + intros Hmissing. unfold constructor.
      destruct (falsy_string (cfg_deploymentUrl config)) eqn:Hurl.
      { destruct (cfg_client config); by eexists. }
      destruct (falsy_string (cfg_graphId config)) eqn:Hgraph.
      { destruct (cfg_client config); by eexists. }
      apply falsy_string_false in Hurl as (url & Hurl & ?).
      apply falsy_string_false in Hgraph as (graph & Hgraph & ?).
      naive_solver.
  - intros Hurl%falsy_string_true. unfold constructor. rewrite Hurl.
    by destruct (cfg_client config).
  - intros this (url & graph & Hurl & _ & Hgraph & _ & ->)%constructor_ok.
    by exists url, graph.
Qed.

(** X6. Whatever limit is configured, [hydrate] on a runner built by the
    constructor starts by asking the history for a number of checkpoints
    between 1 and 1000: the configured limit when it is between 1 and
    1000, 1000 when it is larger, and the default of 100 when it is absent
    or not positive. *)
Theorem X6_history_fetch_limit_is_between_1_and_1000
    config this client threadId carried :
  constructor config = Ok this →
  ∃ limit rest,
    trace (snd (hydrate this client threadId (subscribe carried))) =
    CallGetHistory threadId limit :: rest ∧
    (1 ≤ limit ≤ 1000)%Z ∧
    limit =
    match cfg_historyLimit config with
    | None => 100%Z
    | Some k =>
        if (k <=? 0)%Z then 100%Z
        else if (k <=? 1000)%Z then k else 1000%Z
    end.
Proof.
  intros (url & graph & _ & _ & _ & _ & ->)%constructor_ok.
  destruct (hydrate_first_call
              {| historyLimit :=
                   Z.min (nullish (cfg_historyLimit config)
                            DEFAULT_HISTORY_LIMIT) MAX_HISTORY_LIMIT;
                 debug := nullish (cfg_debug config) false;
                 customClient := cfg_client config;
                 frozenConfig :=
                   Some {| deploymentUrl := url;
                           graphId := graph;
                           langsmithApiKey := cfg_langsmithApiKey config;
                           clientTimeoutMs :=
                             nullish (cfg_clientTimeoutMs config)
                               DEFAULT_TIMEOUT |} |}
              client threadId carried) as [rest Hrest].
  eexists _, rest. split; [exact Hrest|].
  unfold fetchLimit, DEFAULT_HISTORY_LIMIT, MAX_HISTORY_LIMIT. simpl.
  destruct (cfg_historyLimit config) as [k|]; simpl.
  - destruct (Z.ltb_spec 0 (Z.min k 1000)), (Z.leb_spec k 0),
      (Z.leb_spec k 1000); lia.
  - split; [lia|done].
Qed.

(** X7. On a runner built by the constructor [connect] never throws. With
    a custom client configured, the history is read through that client;
    without one, through the SDK client made from the frozen
    configuration, that is from the configured URL, API key and timeout. *)
Theorem X7_connect_reads_history_through_the_configured_client
    config this threadId :
  constructor config = Ok this →
  (∀ custom, cfg_client config = Some custom →
             connect this threadId = Ok (hydrate this custom threadId)) ∧
  (cfg_client config = None →
   ∃ url graph,
     cfg_deploymentUrl config = Some url ∧
     cfg_graphId config = Some graph ∧
     connect this threadId =
     Ok (hydrate this
           (sdkClient
              {| deploymentUrl := url;
                 graphId := graph;
                 langsmithApiKey := cfg_langsmithApiKey config;
                 clientTimeoutMs :=
                   nullish (cfg_clientTimeoutMs config) 1800000%Z |})
           threadId)).
Proof.
  intros (url & graph & Hurl & _ & Hgraph & _ & ->)%constructor_ok.
  unfold connect, getHistoryClient. simpl. split.
  - by intros custom ->.
  - intros ->. by exists url, graph.
Qed.
End Construction.

(** ** Hydration, continued *)

(** Payloads are JSON values here, as in section [Hydration]. *)
Section HydrationMore.
Context `{I : Imports} `{!StreamProcessor}.
#[local] Existing Instance jsonValues.

Implicit Types (this : HistoryHydratingAgentRunner)
  (client : HistoryClientInterface)
  (carried : option (gmap string JSValue)) (p : Action → bool)
  (t : list Action).

Lemma count_app p t1 t2 : count p (t1 ++ t2) = count p t1 + count p t2.
Proof. unfold count. by rewrite List.filter_app, length_app. Qed.

Lemma count_cons p a t :
  count p (a :: t) = (if p a then 1 else 0) + count p t.
Proof. unfold count. simpl. by destruct (p a). Qed.

Lemma count_nil p : count p [] = 0.
Proof. done. Qed.

Lemma count_next p (es : list BaseEvent) :
  (∀ e, p (SubscriberNext e) = false) →
  count p (SubscriberNext <$> es) = 0.
Proof.
  intros Hp. induction es as [|e es IH]; [done|].
  rewrite fmap_cons, count_cons, Hp. done.
Qed.

Ltac counting :=
  repeat first
    [ rewrite count_app
    | rewrite count_cons
    | rewrite count_nil
    | rewrite count_next by done ];
  simpl; try lia.

Lemma count_joinActions this client threadId runId carried :
  let t := joinActions this client threadId runId carried in
  count isGetHistory t = 0 ∧ count isRunsList t = 0 ∧
  count isJoinStream t = 1 ∧ count isGetState t ≤ 1.
Proof.
  unfold joinActions.
  destruct (runs_joinStream client threadId runId streamModes)
    as [stream|e]; [destruct (failure stream) as [e|]|];
    repeat split; counting.
Qed.

Lemma count_activeRunActions this client latestState threadId runId n carried :
  let t := activeRunActions this client latestState threadId runId n
             carried in
  count isGetHistory t = 0 ∧ count isRunsList t ≤ 1 ∧
  count isJoinStream t ≤ 1 ∧ count isGetState t ≤ count isJoinStream t ∧
  (count isJoinStream t = 1 → count isRunsList t = 1).
Proof.
  unfold activeRunActions.
  destruct (isThreadBusy latestState); [|repeat split; counting].
  destruct (activeRunIn (runs_list client n threadId)) as [run|];
    [|repeat split; counting].
  destruct (count_joinActions this client threadId (run_id run) carried)
    as (Hh & Hl & Hj & Hs).
  cbv zeta in *.
  set (tj := joinActions this client threadId (run_id run) carried) in *.
  repeat split;
    repeat (rewrite count_cons || rewrite count_app || rewrite count_nil);
    cbn [isGetHistory isRunsList isJoinStream isGetState]; lia.
Qed.

(** X8. One [hydrate] asks for the history exactly once, and first of
    all; it lists the runs at most twice, joins at most one stream and
    fetches the thread state at most once, and only if it joined a stream.
    A stream is joined only after the runs were listed twice. *)
Theorem X8_hydrate_call_budget this client threadId carried :
  let t := trace (snd (hydrate this client threadId (subscribe carried))) in
  head t = Some (CallGetHistory threadId (fetchLimit this)) ∧
  count isGetHistory t = 1 ∧
  count isRunsList t ≤ 2 ∧
  count isJoinStream t ≤ 1 ∧
  count isGetState t ≤ count isJoinStream t ∧
  (count isJoinStream t = 1 → count isRunsList t = 2).
Proof.
  intros t. subst t. rewrite hydrate_trace. unfold hydrateActions.
  split; [done|].
  assert (Hfallback : ∀ prefix,
            let t := CallGetHistory threadId (fetchLimit this) ::
                     fallbackActions prefix threadId 0 in
            count isGetHistory t = 1 ∧ count isRunsList t ≤ 2 ∧
            count isJoinStream t ≤ 1 ∧
            count isGetState t ≤ count isJoinStream t ∧
            (count isJoinStream t = 1 → count isRunsList t = 2)).
  { intros prefix. unfold fallbackActions. repeat split; counting. }
  destruct (threads_getHistory client threadId (fetchLimit this))
    as [[[|latestState older]|]|e]; try apply Hfallback.
  destruct (transformMessages (messageLog this (latestState :: older))
              (debug this)) as [transformed|e]; try apply Hfallback.
  rewrite interruptError_json.
  destruct (count_activeRunActions this client latestState threadId
              (hydrationRunId client threadId) 1 carried)
    as (Hh & Hl & Hj & Hs & Hjl).
  cbv zeta in *.
  set (ta := activeRunActions this client latestState threadId
               (hydrationRunId client threadId) 1 carried) in *.
  repeat split;
    repeat (rewrite count_cons || rewrite count_app || rewrite count_nil
            || rewrite count_next by done);
    cbn [isGetHistory isRunsList isJoinStream isGetState]; lia.
Qed.

(** X9. The run id of the snapshot events is the id of the first run
    listed, whatever its status; when the listing fails, answers nothing
    or an empty list, the snapshot is emitted all the same, under a
    generated id. *)
Theorem X9_snapshot_run_id_is_first_listed_run_or_generated
    this client threadId carried latestState older transformed :
  threads_getHistory client threadId (fetchLimit this) =
    Ok (Some (latestState :: older)) →
  transformMessages (messageLog this (latestState :: older)) (debug this) =
    Ok transformed →
  ∃ runId rest,
    events (trace (snd (hydrate this client threadId (subscribe carried)))) =
    RunStarted threadId runId ::
    MessagesSnapshot transformed threadId runId :: rest ∧
    (∀ run runs, runs_list client 0 threadId = Ok (Some (run :: runs)) →
                 runId = run_id run) ∧
    ((∃ e, runs_list client 0 threadId = Throw e) ∨
     runs_list client 0 threadId = Ok None ∨
     runs_list client 0 threadId = Ok (Some []) →
     runId = "hydration_" +:+ Math_random_base36 0).
Proof.
  intros Hhistory Htransform.
  eexists (hydrationRunId client threadId), _. split; [|split].
  - rewrite (hydrate_events_snapshot _ _ _ _ _ _ _ Hhistory Htransform).
    simpl. reflexivity.
  - intros run runs Hruns. unfold hydrationRunId. by rewrite Hruns.
  - unfold hydrationRunId. intros [[e ->]|[->| ->]]; done.
Qed.

(** *** The carried state across a [hydrate] *)

Lemma fallback_carried prefix threadId w :
  activeRun_manuallyEmittedState (snd (fallback prefix threadId w)) =
  activeRun_manuallyEmittedState w.
Proof. done. Qed.

Lemma joinOrFinish_carried this client activeRun threadId runId w :
  activeRun_manuallyEmittedState
    (snd (joinOrFinish this client activeRun threadId runId w)) =
  match activeRun with
  | Some run =>
      joinCarried this client threadId (run_id run)
        (activeRun_manuallyEmittedState w)
  | None => activeRun_manuallyEmittedState w
  end.
Proof.
  unfold joinOrFinish. destruct activeRun as [run|]; [|done].
  unfold try_catch.
  pose proof (join_carried this client threadId (run_id run) w) as Hc.
  by destruct (joinAndProcessStream this client threadId (run_id run) w)
    as [[[]|e] w'].
Qed.

(** The carried state after the active-run phase. *)
Lemma activeRunPhase_carried this client latestState threadId runId w :
  activeRun_manuallyEmittedState
    (snd (activeRunPhase this client latestState threadId runId w)) =
  if isThreadBusy latestState then
    match activeRunIn (runs_list client (listCalls w) threadId) with
    | Some run =>
        joinCarried this client threadId (run_id run)
          (activeRun_manuallyEmittedState w)
    | None => activeRun_manuallyEmittedState w
    end
  else activeRun_manuallyEmittedState w.
Proof.
  unfold activeRunPhase. unfold bind. rewrite findActiveRun_run.
  destruct (isThreadBusy latestState).
  - match goal with
    | |- context [joinOrFinish ?t ?c ?a ?i ?r ?w0] =>
        destruct (joinOrFinish_run t c a i r w0) as [Hok _];
        pose proof (joinOrFinish_carried t c a i r w0) as Hc;
        destruct (joinOrFinish t c a i r w0) as [res w']
    end.
    simpl in Hok, Hc. subst res. simpl. rewrite Hc.
    by destruct (activeRunIn _).
  - destruct (joinOrFinish_run this client None threadId runId w)
      as [Hok _].
    pose proof (joinOrFinish_carried this client None threadId runId w)
      as Hc.
    destruct (joinOrFinish this client None threadId runId w) as [res w'].
    simpl in Hok, Hc. subst res. simpl. by rewrite Hc.
Qed.

Lemma hydrate_carried this client threadId carried :
  activeRun_manuallyEmittedState
    (snd (hydrate this client threadId (subscribe carried))) =
  match threads_getHistory client threadId (fetchLimit this) with
  | Ok (Some (latestState :: older)) =>
      match transformMessages (messageLog this (latestState :: older))
              (debug this) with
      | Ok _ =>
          if isThreadBusy latestState then
            match activeRunIn (runs_list client 1 threadId) with
            | Some run =>
                joinCarried this client threadId (run_id run) carried
            | None => carried
            end
          else carried
      | Throw _ => carried
      end
  | _ => carried
  end.
Proof.
  assert (Hfallback : ∀ prefix w0,
            ∃ w', fallback prefix threadId w0 = (Ok tt, w') ∧
                  activeRun_manuallyEmittedState w' =
                  activeRun_manuallyEmittedState w0).
  { intros prefix w0. destruct (fallback_run prefix threadId w0) as [Hok _].
    pose proof (fallback_carried prefix threadId w0) as Hc.
    destruct (fallback prefix threadId w0) as [res w']. simpl in Hok, Hc.
    subst res. by exists w'. }
  unfold hydrate, try_catch, hydrateBody.
  unfold bind at 1. unfold client_getHistory. unfold bind at 1.
  rewrite act_run. unfold lift.
  destruct (threads_getHistory client threadId (fetchLimit this))
    as [[[|latestState older]|]|e].
  1, 3, 4:
    match goal with
    | |- context [fallback ?p ?t ?w0] =>
        destruct (Hfallback p w0) as (w' & -> & Hc); simpl; by rewrite Hc
    end.
  fold (messageLog this (latestState :: older)).
  unfold bind at 1. unfold lift.
  destruct (transformMessages (messageLog this (latestState :: older))
              (debug this)) as [transformedMessages|e].
  2: { match goal with
       | |- context [fallback ?p ?t ?w0] =>
           destruct (Hfallback p w0) as (w' & -> & Hc); simpl; by rewrite Hc
       end. }
  unfold bind at 1.
  destruct (latestRunId_run client threadId
              (logged (subscribe carried)
                 [CallGetHistory threadId (fetchLimit this)]))
    as (w1 & -> & Ht1 & Hl1 & Hc1 & _); [done..|].
  rewrite last_reverse_cons.
  unfold bind at 1. unfold subscriber_next at 1. rewrite act_run.
  unfold bind at 1. unfold subscriber_next at 1. rewrite act_run.
  unfold bind at 1. rewrite emitState_run.
  unfold bind at 1. rewrite emitInterrupt_run, interruptError_json.
  fold (activeRunPhase this client latestState threadId
          (hydrationRunId client threadId)).
  match goal with
  | |- context [activeRunPhase ?t ?c ?s ?i ?r ?w0] =>
      destruct (activeRunPhase_run t c s i r w0) as [Hok _];
      pose proof (activeRunPhase_carried t c s i r w0) as Hc;
      destruct (activeRunPhase t c s i r w0) as [res w']
  end.
  simpl in Hok, Hc. subst res. simpl. rewrite Hc, Hl1, Hc1. done.
Qed.

Lemma ended_in_joinActions this client threadId runId carried stream :
  runs_joinStream client threadId runId streamModes = Ok stream →
  StreamEnded (failure stream) ∈
    joinActions this client threadId runId carried.
Proof.
  intros Hopen. unfold joinActions. rewrite Hopen.
  apply elem_of_cons. right. apply elem_of_app. right. by left.
Qed.

(** X10. A [hydrate] leaves [activeRun.manuallyEmittedState] as it found
    it, unless it joined a stream that ended normally; then the field
    holds the value the translator returned last. In particular the
    fallback paths, an idle thread, a failed join and a stream that fails
    do not touch it. *)
Theorem X10_hydrate_changes_carried_state_only_after_a_completed_join
    this client threadId carried :
  let w' := snd (hydrate this client threadId (subscribe carried)) in
  (StreamEnded None ∉ trace w' →
   activeRun_manuallyEmittedState w' = carried) ∧
  (∀ runId stream,
      CallJoinStream threadId runId streamModes ∈ trace w' →
      runs_joinStream client threadId runId streamModes = Ok stream →
      failure stream = None →
      activeRun_manuallyEmittedState w' =
      manuallyEmittedState
        (finalJoinState this threadId (chunks stream)
           (initialJoinState runId carried))).
Proof.
  intros w'. subst w'. rewrite hydrate_carried, hydrate_trace.
  unfold hydrateActions.
  assert (Hnojoin : ∀ prefix runId,
            CallJoinStream threadId runId streamModes ∉
            CallGetHistory threadId (fetchLimit this) ::
            fallbackActions prefix threadId 0).
  { intros prefix runId. unfold fallbackActions.
    rewrite !not_elem_of_cons. repeat split; try done.
    apply not_elem_of_nil. }
  destruct (threads_getHistory client threadId (fetchLimit this))
    as [[[|latestState older]|]|e];
    try (split; [done|]; intros runId stream Hin; by apply Hnojoin in Hin).
  destruct (transformMessages (messageLog this (latestState :: older))
              (debug this)) as [transformed|e];
    try (split; [done|]; intros runId stream Hin; by apply Hnojoin in Hin).
  rewrite interruptError_json. unfold activeRunActions.
  assert (Hsnapshot : ∀ runId (es : list BaseEvent),
            CallJoinStream threadId runId streamModes ∉
            SubscriberNext <$> es).
  { intros runId es (e & ? & _)%list_elem_of_fmap. done. }
  destruct (isThreadBusy latestState).
  2: { split; [done|]. intros runId stream Hin. exfalso.
       apply elem_of_cons in Hin as [?|Hin]; [done|].
       apply elem_of_cons in Hin as [?|Hin]; [done|].
       apply elem_of_app in Hin as [Hin|Hin]; [by apply Hsnapshot in Hin|].
       apply elem_of_cons in Hin as [?|Hin]; [done|].
       apply elem_of_cons in Hin as [?|Hin]; [done|].
       by apply elem_of_nil in Hin. }
  destruct (activeRunIn (runs_list client 1 threadId)) as [run|].
  2: { split; [done|]. intros runId stream Hin. exfalso.
       apply elem_of_cons in Hin as [?|Hin]; [done|].
       apply elem_of_cons in Hin as [?|Hin]; [done|].
       apply elem_of_app in Hin as [Hin|Hin]; [by apply Hsnapshot in Hin|].
       apply elem_of_cons in Hin as [?|Hin]; [done|].
       apply elem_of_cons in Hin as [?|Hin]; [done|].
       apply elem_of_cons in Hin as [?|Hin]; [done|].
       by apply elem_of_nil in Hin. }
  split.
  - intros Hnot. unfold joinCarried.
    destruct (runs_joinStream client threadId (run_id run) streamModes)
      as [stream|e] eqn:Hopen; [|done].
    destruct (failure stream) as [e|] eqn:Hfail; [done|].
    exfalso. apply Hnot.
    apply elem_of_cons. right. apply elem_of_cons. right.
    apply elem_of_app. right. apply elem_of_cons. right.
    apply elem_of_app. left. rewrite <- Hfail.
    by apply ended_in_joinActions.
  - intros runId stream Hin Hopen Hfail.
    assert (Hrun : runId = run_id run).
    { apply elem_of_cons in Hin as [?|Hin]; [done|].
      apply elem_of_cons in Hin as [?|Hin]; [done|].
      apply elem_of_app in Hin as [Hin|Hin]; [by apply Hsnapshot in Hin|].
      apply elem_of_cons in Hin as [?|Hin]; [done|].
      apply elem_of_app in Hin as [Hin|Hin];
        [|apply elem_of_cons in Hin as [?|Hin]; [done|];
          by apply elem_of_nil in Hin].
      destruct (joinActions_shape this client threadId (run_id run) carried)
        as (body & r' & Hshape & _).
      unfold joinActions in Hin.
      apply elem_of_cons in Hin as [Heq|Hin]; [by injection Heq|].
      exfalso.
      destruct (runs_joinStream client threadId (run_id run) streamModes)
        as [s|e].
      - apply elem_of_app in Hin as [Hin|Hin];
          [by apply Hsnapshot in Hin|].
        apply elem_of_cons in Hin as [?|Hin]; [done|].
        destruct (failure s).
        + apply elem_of_cons in Hin as [?|Hin]; [done|].
          by apply elem_of_nil in Hin.
        + apply elem_of_cons in Hin as [?|Hin]; [done|].
          apply elem_of_app in Hin as [Hin|Hin];
            [by apply Hsnapshot in Hin|].
          apply elem_of_cons in Hin as [?|Hin]; [done|].
          by apply elem_of_nil in Hin.
      - apply elem_of_cons in Hin as [?|Hin]; [done|].
        by apply elem_of_nil in Hin. }
    subst runId. unfold joinCarried. by rewrite Hopen, Hfail.
Qed.
End HydrationMore.

(** ** Joining a stream, continued *)

Section JoinMore.
Context `{I : Imports} `{!StreamProcessor}.
#[local] Existing Instance jsonValues.

Implicit Types (this : HistoryHydratingAgentRunner)
  (client : HistoryClientInterface) (st : JoinState)
  (cs : list HistoryStreamChunk).

Lemma streamEvents_app this threadId cs1 cs2 st :
  streamEvents this threadId (cs1 ++ cs2) st =
  streamEvents this threadId cs1 st ++
  streamEvents this threadId cs2 (finalJoinState this threadId cs1 st).
Proof.
  revert st. induction cs1 as [|c cs1 IH]; intros st; simpl; [done|].
  by rewrite IH, app_assoc.
Qed.

Lemma finalJoinState_app this threadId cs1 cs2 st :
  finalJoinState this threadId (cs1 ++ cs2) st =
  finalJoinState this threadId cs2 (finalJoinState this threadId cs1 st).
Proof.
  revert st. induction cs1 as [|c cs1 IH]; intros st; simpl; [done|].
  by rewrite IH.
Qed.

(** X11. [joinAndProcessStream] always ends by emitting [RUN_FINISHED]
    and never completes the subscriber. It throws exactly when the stream
    cannot be opened or fails, with that error; [RUN_FINISHED] then
    carries the run id the join was asked for, the thread state is not
    fetched, and [activeRun.manuallyEmittedState] is left as it was. When
    the stream ends normally the join returns, even if the final state
    fetch fails. *)
Theorem X11_join_always_ends_with_run_finished
    this client threadId runId w :
  let result := joinAndProcessStream this client threadId runId w in
  (∃ body runId',
      trace (snd result) =
      trace w ++ [CallJoinStream threadId runId streamModes] ++ body ++
      [SubscriberNext (RunFinished threadId runId')] ∧
      SubscriberComplete ∉ body) ∧
  (∀ e, runs_joinStream client threadId runId streamModes = Throw e →
        result =
        (Throw e,
         logged w [CallJoinStream threadId runId streamModes;
                   SubscriberNext (RunFinished threadId runId)])) ∧
  (∀ stream e,
      runs_joinStream client threadId runId streamModes = Ok stream →
      failure stream = Some e →
      result =
      (Throw e,
       logged w
         ([CallJoinStream threadId runId streamModes] ++
          (SubscriberNext <$>
             streamEvents this threadId (chunks stream)
               (initialJoinState runId (activeRun_manuallyEmittedState w)))
          ++ [StreamEnded (Some e);
              SubscriberNext (RunFinished threadId runId)]))) ∧
  (∀ stream,
      runs_joinStream client threadId runId streamModes = Ok stream →
      failure stream = None →
      fst result = Ok tt).
Proof.
  intros result. subst result. split; [|split; [|split]].
  - rewrite join_trace.
    destruct (joinActions_shape this client threadId runId
                (activeRun_manuallyEmittedState w))
      as (body & runId' & Hshape & Hbody).
    assert (Hhead : ∃ body', body =
              CallJoinStream threadId runId streamModes :: body').
    { unfold joinActions in Hshape. destruct body as [|a body'].
      - by destruct (runs_joinStream _ _ _ _).
      - injection Hshape as <- _. by eexists. }
    destruct Hhead as [body' ->]. exists body', runId'. split.
    + by rewrite Hshape.
    + intros Hin. apply Hbody. by right.
  - intros e Hopen. by apply join_open_fails.
  - intros stream e Hopen Hfail. by apply join_stream_fails.
  - intros stream Hopen Hfail.
    by rewrite (join_stream_ends _ _ _ _ _ _ Hopen Hfail).
Qed.

(** X12. The [for await] loop never throws, whatever [processStreamChunk]
    does. Around any chunk of the stream: the events of the chunks before
    it, its own events (also those pushed before it threw) and the events
    of the chunks after it are emitted in this order; if its processing
    returned, the run id and the [manuallyEmittedState] it returned are
    what the next chunk is processed with; if it threw, the next chunk is
    processed with the run id and [manuallyEmittedState] of before. *)
Theorem X12_a_failing_chunk_does_not_stop_the_stream
    this threadId cs1 chunk cs2 st w :
  let st1 := finalJoinState this threadId cs1 st in
  let out := chunkOutcome this threadId st1 chunk in
  let st2 := nextJoinState this threadId st1 chunk in
  forAwait this threadId (cs1 ++ chunk :: cs2) st w =
  (Ok (finalJoinState this threadId cs2 st2),
   logged w
     (SubscriberNext <$>
        streamEvents this threadId cs1 st ++ out_events out ++
        streamEvents this threadId cs2 st2)) ∧
  startedMessages st2 = out_startedMessages out ∧
  startedToolCalls st2 = out_startedToolCalls out ∧
  match out_result out with
  | Ok result =>
      currentRunId st2 = res_runId result ∧
      manuallyEmittedState st2 = res_manuallyEmittedState result
  | Throw _ =>
      currentRunId st2 = currentRunId st1 ∧
      manuallyEmittedState st2 = manuallyEmittedState st1
  end.
Proof.
  intros st1 out st2. split; [|split; [done|split; [done|]]].
  - rewrite forAwait_run, streamEvents_app, finalJoinState_app. done.
  - subst st2 out. unfold nextJoinState.
    by destruct (out_result (chunkOutcome this threadId st1 chunk)).
Qed.

End JoinMore.

(** ** Dispatching a run *)

Section RunMore.
Context `{U : JSUniverse} `{A : AgentImports}.

Implicit Types (this : HistoryHydratingAgentRunner)
  (delegate : RunnerDelegate) (input : RunInput).

(** The shape of a run that is dispatched. *)
Lemma run_ok this delegate input calls :
  run this delegate input = Ok calls →
  ∃ agentToUse enrichedState,
    (match customClient this with
     | Some _ => Ok (agent delegate)
     | None => createFreshAgent this
     end) = Ok agentToUse ∧
    (match stateExtractor delegate with
     | Some extractor =>
         match extractor input (input_forwardedProps input) with
         | Ok extractedState =>
             Ok (spread (default ∅ (input_state input)) extractedState)
         | Throw e => Throw e
         end
     | None => Ok (default ∅ (input_state input))
     end) = Ok enrichedState ∧
    calls =
    [AgentSetState agentToUse enrichedState;
     AgentRun agentToUse
       {| input_threadId := input_threadId input;
          input_state := Some enrichedState;
          input_forwardedProps := input_forwardedProps input;
          input_others := input_others input |}].
Proof.
  unfold run. intros Hrun.
  destruct (match customClient this with
            | Some _ => Ok (agent delegate)
            | None => createFreshAgent this
            end) as [agentToUse|e]; [|done].
  destruct (match stateExtractor delegate with
            | Some extractor => _
            | None => _
            end) as [enrichedState|e]; [|done].
  injection Hrun as <-. by exists agentToUse, enrichedState.
Qed.

(** X14. A run that is dispatched makes two calls, on one agent:
    [setState] and then [run], and the state given to [setState] is the
    state of the input given to [run]; thread id, forwarded properties
    and the other keys of the input are passed on unchanged. With a custom
    client the agent is the configured one; without, it is the agent that
    [createIsolatedAgent] makes from the frozen configuration. *)
Theorem X14_run_sets_state_then_runs_on_the_chosen_agent
    this delegate input calls :
  run this delegate input = Ok calls →
  ∃ agentToUse enrichedState,
    calls =
    [AgentSetState agentToUse enrichedState;
     AgentRun agentToUse
       {| input_threadId := input_threadId input;
          input_state := Some enrichedState;
          input_forwardedProps := input_forwardedProps input;
          input_others := input_others input |}] ∧
    (customClient this ≠ None → agentToUse = agent delegate) ∧
    (customClient this = None →
     ∃ frozen, frozenConfig this = Some frozen ∧
               agentToUse = createIsolatedAgent frozen).
Proof.
  intros (agentToUse & enrichedState & Hagent & _ & ->)%run_ok.
  exists agentToUse, enrichedState. split; [done|]. split.
  - intros Hcustom. destruct (customClient this); [|done].
    by injection Hagent.
  - intros Hnone. rewrite Hnone in Hagent. unfold createFreshAgent in Hagent.
    destruct (frozenConfig this) as [frozen|]; [|done].
    exists frozen. split; [done|]. injection Hagent as <-.
    by destruct frozen.
Qed.

(** X15. The state a run is dispatched with: without a state extractor it
    is the state of the request, or the empty object when the request has
    none; with an extractor, every key the extractor returns has the
    extractor's value, and every other key has the value of the request's
    state. *)
Theorem X15_run_state_is_request_state_overridden_by_extractor
    this delegate input calls :
  run this delegate input = Ok calls →
  ∃ agentToUse enrichedState rest,
    calls = AgentSetState agentToUse enrichedState :: rest ∧
    (stateExtractor delegate = None →
     enrichedState = default ∅ (input_state input)) ∧
    (∀ extractor extractedState,
        stateExtractor delegate = Some extractor →
        extractor input (input_forwardedProps input) = Ok extractedState →
        ∀ key,
          enrichedState !! key =
          match extractedState !! key with
          | Some v => Some v
          | None => default ∅ (input_state input) !! key
          end).
Proof.
  intros (agentToUse & enrichedState & _ & Hstate & ->)%run_ok.
  eexists agentToUse, enrichedState, _. split; [done|]. split.
  - intros Hnone. rewrite Hnone in Hstate. by injection Hstate.
  - intros extractor extractedState Hsome Hextracted key.
    rewrite Hsome, Hextracted in Hstate. injection Hstate as <-.
    unfold spread. rewrite lookup_union.
    destruct (extractedState !! key) as [v|] eqn:Hkey; simpl.
    + by destruct (default ∅ (input_state input) !! key).
    + by destruct (default ∅ (input_state input) !! key).
Qed.

(** X16. On a runner built by the constructor, [run] throws only when the
    state extractor throws, and then with the extractor's error; without
    an extractor, or when the extractor returns, the run is dispatched. *)
Theorem X16_run_on_constructed_runner_fails_only_with_the_extractor
    (config : HistoryHydratingRunnerConfig) this delegate input :
  constructor config = Ok this →
  (stateExtractor delegate = None →
   ∃ calls, run this delegate input = Ok calls) ∧
  (∀ extractor,
      stateExtractor delegate = Some extractor →
      match extractor input (input_forwardedProps input) with
      | Ok _ => ∃ calls, run this delegate input = Ok calls
      | Throw e => run this delegate input = Throw e
      end).
Proof.
  intros Hnew.
  assert (Hagent : ∃ a, (match customClient this with
                         | Some _ => Ok (agent delegate)
                         | None => createFreshAgent this
                         end) = Ok a).
  { unfold constructor in Hnew.
    destruct (cfg_client config) as [custom|];
      destruct (falsy_string (cfg_deploymentUrl config)); try done;
      destruct (falsy_string (cfg_graphId config)); try done;
      injection Hnew as <-; simpl; by eexists. }
  destruct Hagent as [a Ha]. unfold run. rewrite Ha. split.
  - intros ->. by eexists.
  - intros extractor ->.
    destruct (extractor input (input_forwardedProps input)); [by eexists|done].
Qed.
End RunMore.

(** ** Further examples *)

Section MoreExamples.
Import RunFixture.
#[local] Existing Instances
  Fixture.universe Fixture.imports Fixture.reader Fixture.processor agents.
#[local] Existing Instance jsonValues.

Lemma repeated_checkpoint_brings_nothing :
  ∀ m, m ∈ checkpointMessages (Fixture.checkpoint ["a"] [] []) →
       msg_id m ∈ msg_id <$> chronological [Fixture.checkpoint ["a"] [] []].
Proof.
  intros m Hm. apply list_elem_of_fmap. exists m. split; [done|].
  exact Hm.
Defined.

Lemma X1_witness :
  messageLog (Fixture.runner 100)
    ([Fixture.checkpoint ["a"; "b"] [] []] ++
     Fixture.checkpoint ["a"] [] [] :: [Fixture.checkpoint ["a"] [] []]) =
  [Fixture.message "a"; Fixture.message "b"].
Proof.
  rewrite (X1_checkpoint_without_new_ids_changes_nothing
             (Fixture.runner 100) [Fixture.checkpoint ["a"; "b"] [] []]
             [Fixture.checkpoint ["a"] [] []] (Fixture.checkpoint ["a"] [] [])
             repeated_checkpoint_brings_nothing).
  vm_compute. reflexivity.
Defined.

Lemma history_is_cumulative :
  cumulative (checkpointMessages <$> reverse Fixture.history).
Proof. split; [|done]. by exists [Fixture.message "b"]. Defined.

Lemma newest_ids_distinct :
  NoDup (msg_id <$> checkpointMessages (Fixture.checkpoint ["a"; "b"] [] [])).
Proof.
  apply NoDup_cons. split; [|apply NoDup_singleton].
  intros Hin. apply list_elem_of_singleton in Hin. discriminate.
Defined.

Lemma X2_witness :
  collectMessages (reverse Fixture.history) =
  [Fixture.message "a"; Fixture.message "b"].
Proof.
  exact (X2_cumulative_checkpoints_give_newest_messages
           (Fixture.checkpoint ["a"; "b"] [] []) [Fixture.checkpoint ["a"] [] []]
           history_is_cumulative newest_ids_distinct).
Defined.

Lemma X6_witness :
  constructor (Fixture.config (Some 5000%Z)) =
    Ok (platformRunner (Some 5000%Z)) ∧
  ∃ rest,
    trace (snd (hydrate (platformRunner (Some 5000%Z)) Fixture.idleClient "thread-1"
                  (subscribe None))) =
    CallGetHistory "thread-1" 1000 :: rest.
Proof.
  split; [reflexivity|].
  destruct (X6_history_fetch_limit_is_between_1_and_1000
              (Fixture.config (Some 5000%Z)) (platformRunner (Some 5000%Z))
              Fixture.idleClient "thread-1" None eq_refl)
    as (limit & rest & Htrace & _ & Hlimit).
  exists rest. rewrite Htrace, Hlimit. reflexivity.
Defined.

Lemma X7_witness :
  constructor (Fixture.config None) = Ok (platformRunner None) ∧
  connect (platformRunner None) "thread-1" =
  Ok (hydrate (platformRunner None)
        (sdkClient {| deploymentUrl := "https://langgraph.example";
                      graphId := "my-agent";
                      langsmithApiKey := None;
                      clientTimeoutMs := 1800000%Z |})
        "thread-1").
Proof.
  split; [reflexivity|].
  destruct (X7_connect_reads_history_through_the_configured_client
              (Fixture.config None) (platformRunner None) "thread-1" eq_refl)
    as [_ Hsdk].
  destruct (Hsdk eq_refl) as (url & graph & Hurl & Hgraph & Hconnect).
  injection Hurl as <-. injection Hgraph as <-. exact Hconnect.
Defined.

Lemma X9_witness :
  runs_list Fixture.idleClient 0 "thread-1" = Ok (Some [Fixture.run "run-7" success]) ∧
  ∃ rest,
    events
      (trace (snd (hydrate (Fixture.runner 100) Fixture.idleClient "thread-1"
                     (subscribe None)))) =
    RunStarted "thread-1" "run-7" ::
    MessagesSnapshot ["a"; "b"] "thread-1" "run-7" :: rest.
Proof.
  split; [reflexivity|].
  destruct (X9_snapshot_run_id_is_first_listed_run_or_generated
              (Fixture.runner 100) Fixture.idleClient "thread-1" None
              (Fixture.checkpoint ["a"; "b"] [] []) [Fixture.checkpoint ["a"] [] []]
              ["a"; "b"] eq_refl history_transformed)
    as (runId & rest & Hevents & Hfirst & _).
  exists rest. rewrite Hevents.
  by rewrite (Hfirst (Fixture.run "run-7" success) [] eq_refl).
Defined.


Lemma run_dispatched :
  run (platformRunner None) delegate input = Ok dispatched.
Proof. vm_compute. reflexivity. Defined.

Lemma X14_witness :
  ∃ agentToUse enrichedState rest,
    dispatched = AgentSetState agentToUse enrichedState :: rest ∧
    agentToUse = "fresh:https://langgraph.example".
Proof.
  destruct (X14_run_sets_state_then_runs_on_the_chosen_agent
              (platformRunner None) delegate input dispatched
              run_dispatched)
    as (agentToUse & enrichedState & Hcalls & _ & Hfresh).
  destruct (Hfresh eq_refl) as (frozen & Hfrozen & ->).
  injection Hfrozen as <-.
  eexists _, enrichedState, _. split; [exact Hcalls|reflexivity].
Defined.

Lemma X15_witness :
  ∃ agentToUse enrichedState rest,
    dispatched = AgentSetState agentToUse enrichedState :: rest ∧
    enrichedState !! "user" = Some "ada" ∧
    enrichedState !! "plan" = Some "draft".
Proof.
  destruct (X15_run_state_is_request_state_overridden_by_extractor
              (platformRunner None) delegate input dispatched
              run_dispatched)
    as (agentToUse & enrichedState & rest & Hcalls & _ & Hkeys).
  exists agentToUse, enrichedState, rest. split; [exact Hcalls|].
  split.
  - rewrite (Hkeys userExtractor {[ "user" := "ada" ]} eq_refl eq_refl).
    vm_compute. reflexivity.
  - rewrite (Hkeys userExtractor {[ "user" := "ada" ]} eq_refl eq_refl).
    vm_compute. reflexivity.
Defined.

Lemma X16_witness :
  constructor (Fixture.config None) = Ok (platformRunner None) ∧
  ∃ calls, run (platformRunner None) delegate input = Ok calls.
Proof.
  split; [reflexivity|].
  destruct (X16_run_on_constructed_runner_fails_only_with_the_extractor
              (Fixture.config None) (platformRunner None) delegate input eq_refl)
    as [_ Hextractor].
  exact (Hextractor userExtractor eq_refl).
Defined.
Lemma X17_witness :
  wellBracketed "thread-1"
    (events
       (trace (snd (hydrate (Fixture.runner 100) Fixture.busyClient
                      "thread-1" (subscribe None))))).
Proof.
  destruct (X17_no_exception_escapes_and_bracket_closed_when_payload_serialises
              (Fixture.runner 100) Fixture.busyClient "thread-1" None)
    as (_ & _ & _ & _ & _ & Hbracket).
  apply Hbracket.
  - intros latestState older i _ _. reflexivity.
  - intros latestState older Hhistory. injection Hhistory as <- <-.
    vm_compute. repeat constructor.
Defined.
End MoreExamples.
